(** * Dead-time power spectrum model (stingray/deadtime/model.py)

    A shallow embedding of the numeric kernel of [stingray.deadtime.model]
    (Zhang+95 dead-time model) and the properties checked against it.

    The Python code computes on binary64 floats and raises exceptions
    (division of a Python float by zero, an array index out of range, the
    conversion of a non-finite float to an integer).  The embedding keeps both:
    the functions are written once over an interface [Num] of the float
    operations the code uses, and return a [result] that is either a value or
    the exception raised.  [R_num] instantiates the interface with the real
    numbers (exact arithmetic); [b64_num] instantiates it with IEEE binary64
    floats, the transcendental functions of the C library being parameters.

    The functions are read with the semantics of Python: the decorator
    [njit] of [stingray.utils] falls back to the plain function when numba is
    absent, and it is that function which is embedded here.  Where a
    statement is about what the source itself tests before it reads the
    inverse-factorial table, the read is a parameter instead
    ([e_m_x_x_over_factorial_with], [Gn_with]). *)

From Stdlib Require Import Floats ZArith List Bool Lia Reals Lra.
Import ListNotations.

(** ** Exceptions *)

Inductive exn : Type :=
| ZeroDivisionError
| IndexError
| ValueError
| OverflowError.

Inductive result (A : Type) : Type :=
| Ok (a : A)
| Err (e : exn).

Arguments Ok {A} a.
Arguments Err {A} e.

Definition bind {A B : Type} (r : result A) (f : A -> result B) : result B :=
  match r with
  | Ok a => f a
  | Err e => Err e
  end.

Notation "x <- c ;; k" := (bind c (fun x => k))
  (at level 61, c at next level, right associativity).

Definition is_ok {A : Type} (r : result A) : bool :=
  match r with Ok _ => true | Err _ => false end.

(** [for x in xs: s += f(x)], the accumulation loop of the source: the first
    exception raised by [f] leaves the loop. *)
Fixpoint accumulate {F : Type} (add : F -> F -> F) (f : Z -> result F)
    (xs : list Z) (s : F) : result F :=
  match xs with
  | [] => Ok s
  | x :: xs' => v <- f x ;; accumulate add f xs' (add s v)
  end.

(** [[f(x) for x in xs]], evaluated left to right. *)
Fixpoint mapM {A B : Type} (f : A -> result B) (xs : list A) : result (list B) :=
  match xs with
  | [] => Ok []
  | x :: xs' => y <- f x ;; ys <- mapM f xs' ;; Ok (y :: ys)
  end.

(** Python's [range(a, b)]. *)
Definition range (a b : Z) : list Z :=
  map (fun i => (a + Z.of_nat i)%Z) (seq 0 (Z.to_nat (b - a))).

(** ** The float operations the code uses *)

Class Num (F : Type) : Type := {
  of_Z : Z -> F;                 (* float(i), the implicit int -> float conversion *)
  fadd : F -> F -> F;
  fsub : F -> F -> F;
  fmul : F -> F -> F;
  fdiv : F -> F -> F;            (* IEEE division: never raises (numpy scalars) *)
  fneg : F -> F;
  fabs : F -> F;                 (* np.abs *)
  feqb : F -> F -> bool;         (* == *)
  fltb : F -> F -> bool;         (* < *)
  fexp : F -> F;                 (* np.exp *)
  flog10 : F -> F;               (* np.log10 *)
  fcos : F -> F;                 (* np.cos *)
  fsqrt : F -> F;                (* np.sqrt *)
  fpow : F -> Z -> F;            (* np.power(x, m), pow of the C library *)
  fpi : F;                       (* np.pi *)
  is_nan : F -> bool;
  is_inf : F -> bool;
  trunc : F -> Z;                (* rounding toward zero of a finite float *)
  fceil : F -> Z                 (* rounding up of a finite float *)
}.

Declare Scope num_scope.
Delimit Scope num_scope with num.
Notation "a .+ b" := (fadd a b) (at level 50, left associativity) : num_scope.
Notation "a .- b" := (fsub a b) (at level 50, left associativity) : num_scope.
Notation "a .* b" := (fmul a b) (at level 40, left associativity) : num_scope.
Notation "a ./ b" := (fdiv a b) (at level 40, left associativity) : num_scope.

Section Model.

Context {F : Type} {num : Num F}.
Local Open Scope num_scope.
Local Open Scope Z_scope.

(** *** Python scalar operations that raise

    The arguments [rate], [td], [tb] are Python floats and the indices are
    Python ints.  A division between Python scalars raises on a zero divisor
    and is [pdiv]; a division in which an operand is a numpy scalar (a value
    of [np.exp], [np.sqrt], [np.power], an entry of an array) follows IEEE
    and is [./]. *)

(** [a / b] on Python floats and ints: [ZeroDivisionError] when [b == 0]. *)
Definition pdiv (a b : F) : result F :=
  if feqb b (of_Z 0) then Err ZeroDivisionError else Ok (a ./ b).

(** [x ** m] on a Python float: [OverflowError] when a finite [x] overflows. *)
Definition ppow (x : F) (m : Z) : result F :=
  let r := fpow x m in
  if is_inf r && negb (is_inf x) then Err OverflowError else Ok r.

(** [int(x)]: [ValueError] on NaN, [OverflowError] on an infinity. *)
Definition pint (x : F) : result Z :=
  if is_nan x then Err ValueError
  else if is_inf x then Err OverflowError
  else Ok (trunc x).

(** [int(max(1, v))]: Python's [max] keeps its first argument unless a later
    one is strictly greater. *)
Definition int_max1 (v : F) : result Z :=
  if fltb (of_Z 1) v then pint v else Ok 1.

(** [a[i]] on a one-dimensional array: a negative index counts from the end,
    an index outside the array raises [IndexError]. *)
Definition getitem (a : list F) (i : Z) : result F :=
  let len := Z.of_nat (length a) in
  let i' := if i <? 0 then i + len else i in
  if (i' <? 0) || (len <=? i') then Err IndexError
  else match nth_error a (Z.to_nat i') with
       | Some v => Ok v
       | None => Err IndexError
       end.

(** [np.arange(start, stop, step)] on floats: [ceil((stop - start) / step)]
    entries [start + i * step]. *)
Definition arange (start stop step : F) : result (list F) :=
  let q := (stop .- start) ./ step in
  if is_nan q || is_inf q then Err ValueError
  else Ok (map (fun i => start .+ of_Z i .* step) (range 0 (fceil q))).

(** *** Module constants *)

Definition MAX_FACTORIAL : Z := 100.

Definition factorial (m : Z) : Z := fold_left Z.mul (range 1 (m + 1)) 1.

(** [1.0 / factorial(np.arange(MAX_FACTORIAL))] *)
Definition __INVERSE_FACTORIALS : list F :=
  map (fun m => of_Z 1 ./ of_Z (factorial m)) (range 0 MAX_FACTORIAL).

(** [np.finfo(float).precision] *)
Definition PRECISION : Z := 15.

Definition TWOPI : F := fpi .* of_Z 2.

Definition STERLING_PARAMETERS : list F :=
  [ of_Z 1 ./ of_Z 12; of_Z 1 ./ of_Z 288;
    of_Z (-139) ./ of_Z 51840; of_Z (-571) ./ of_Z 2488320 ].

Definition sterling_parameter (i : nat) : F :=
  nth i STERLING_PARAMETERS (of_Z 0).

(** *** The kernel *)

Definition sterling_factor (m : Z) : F :=
  of_Z 1
  .+ sterling_parameter 0 ./ of_Z m
  .+ sterling_parameter 1 ./ of_Z (m ^ 2)
  .+ sterling_parameter 2 ./ of_Z (m ^ 3)
  .+ sterling_parameter 3 ./ of_Z (m ^ 4).

(** The test [m * np.log10(x) < 50] that selects the direct formula. *)
Definition direct_formula (x : F) (m : Z) : bool :=
  fltb (of_Z m .* flog10 x) (of_Z 50).

Definition e_m_x_x_over_factorial (x : F) (m : Z) : result F :=
  if feqb x (of_Z 0) && (m =? 0) then Ok (of_Z 1)
  else if direct_formula x m then
    xm <- ppow x m ;;
    inv <- getitem __INVERSE_FACTORIALS m ;;
    Ok (fexp (fneg x) .* xm .* inv)
  else
    q <- pdiv x (of_Z m) ;;
    Ok (of_Z 1 ./ fsqrt (TWOPI .* of_Z m)
        .* fpow (x .* fexp (of_Z 1 .- q) ./ of_Z m) m
        ./ sterling_factor m).

Definition r_in (td r_0 : F) : result F :=
  tau <- pdiv (of_Z 1) r_0 ;;
  pdiv (of_Z 1) (tau .- td).

Definition r_det (td r_i : F) : result F :=
  tau <- pdiv (of_Z 1) r_i ;;
  pdiv (of_Z 1) (tau .+ td).

(** The early exit of [Gn]:
    [x != 0 and m > 2 * x and -np.log10(np.abs(new_val / s)) > PRECISION].
    The quotient is only evaluated for [x != 0], where [new_val] is a numpy
    scalar. *)
Definition Gn_break (x : F) (m : Z) (new_val s : F) : bool :=
  negb (feqb x (of_Z 0))
  && fltb (of_Z 2 .* x) (of_Z m)
  && fltb (of_Z PRECISION) (fneg (flog10 (fabs (new_val ./ s)))).

(** The loop of [Gn] over the remaining indices [ms], with accumulator [s]. *)
Fixpoint Gn_loop (x : F) (n : Z) (ms : list Z) (s : F) : result F :=
  match ms with
  | [] => Ok s
  | m :: ms' =>
      e <- e_m_x_x_over_factorial x m ;;
      let new_val := e .* of_Z (n - m) in
      let s' := s .+ new_val in
      if Gn_break x m new_val s' then Ok s' else Gn_loop x n ms' s'
  end.

Definition Gn (x : F) (n : Z) : result F :=
  Gn_loop x n (range 0 n) (of_Z 0).

Definition heaviside (x : F) : Z :=
  if fltb x (of_Z 0) then 0 else if is_nan x then 0 else 1.

Definition h (k n : Z) (td tb tau : F) : result F :=
  let factor := of_Z k .* tb .- of_Z n .* td in
  if fltb (of_Z k .* tb .- of_Z n .* td) (of_Z 0) then Ok (of_Z 0)
  else
    a <- pdiv (of_Z n .* (td .+ tau)) tb ;;
    r <- pdiv tau tb ;;
    x <- pdiv factor tau ;;
    g <- Gn x n ;;
    Ok (of_Z k .- a .+ r .* g).

Definition A0 (r0 td tb tau : F) : result F :=
  q <- pdiv tb td ;;
  stop <- int_max1 (q .+ of_Z 1) ;;
  s <- accumulate fadd (fun n => h 1 n td tb tau) (range 1 stop) (of_Z 0) ;;
  Ok (r0 .* tb .* (of_Z 1 .+ of_Z 2 .* s)).

(** The summand of Eq. 39: [h(k + 1, n) - 2 * h(k, n) + h(k - 1, n)]. *)
Definition A_term (k : Z) (td tb tau : F) (n : Z) : result F :=
  h1 <- h (k + 1) n td tb tau ;;
  h2 <- h k n td tb tau ;;
  h3 <- h (k - 1) n td tb tau ;;
  Ok (h1 .- of_Z 2 .* h2 .+ h3).

Definition A_single_k (k : Z) (r0 td tb tau : F) : result F :=
  if k =? 0 then A0 r0 td tb tau
  else
    q <- pdiv (of_Z (k + 2) .* tb) td ;;
    stop <- int_max1 q ;;
    s <- accumulate fadd (A_term k td tb tau) (range 1 (stop * 3)) (of_Z 0) ;;
    Ok (r0 .* tb .* s).

(** The quotient by [r0 * tb] is taken as a Python division; when
    [A_single_k] has returned a numpy scalar and [r0 * tb] is zero, numpy
    gives a NaN or an infinity with a warning instead. *)
Definition B_raw (k : Z) (r0 td tb tau : F) : result F :=
  if k =? 0 then
    a <- A_single_k 0 r0 td tb tau ;;
    r2 <- ppow r0 2 ;;
    t2 <- ppow tb 2 ;;
    pdiv (of_Z 2 .* (a .- r2 .* t2)) (r0 .* tb)
  else
    a <- A_single_k k r0 td tb tau ;;
    r2 <- ppow r0 2 ;;
    t2 <- ppow tb 2 ;;
    pdiv (of_Z 4 .* (a .- r2 .* t2)) (r0 .* tb).

Definition default_limit_k : Z := 60.

Definition safe_B_single_k (k : Z) (r0 td tb tau : F) (limit_k : Z) : result F :=
  if limit_k <? k then Ok (of_Z 0)
  else B_raw k r0 td tb tau.

(** The summand of the inner loop of [_inner_loop_pds_zhang].  [(N - k) / N]
    divides two ints; the later quotient by [N] is then never by zero. *)
Definition pds_term (N : Z) (tau r0 td tb : F) (limit_k j k : Z) : result F :=
  w <- pdiv (of_Z (N - k)) (of_Z N) ;;
  b <- safe_B_single_k k r0 td tb tau limit_k ;;
  Ok (w .* b .* fcos (of_Z 2 .* fpi .* of_Z j .* of_Z k ./ of_Z N)).

(** One frequency bin: note that the lag-zero term is computed with the
    default [limit_k], as in the source. *)
Definition pds_bin (N : Z) (tau r0 td tb : F) (limit_k j : Z) : result F :=
  eq8_sum <- accumulate fadd (pds_term N tau r0 td tb limit_k j)
               (range 1 (Z.min N limit_k)) (of_Z 0) ;;
  b0 <- safe_B_single_k 0 r0 td tb tau default_limit_k ;;
  Ok (b0 .+ eq8_sum).

Definition _inner_loop_pds_zhang (N : Z) (tau r0 td tb : F) (limit_k : Z)
  : result (list F) :=
  if N / 2 <? 0 then Err ValueError            (* np.zeros(N // 2) *)
  else mapM (pds_bin N tau r0 td tb limit_k) (range 0 (N / 2)).

Definition pds_model_zhang (N : Z) (rate td tb : F) (limit_k : Z)
  : result (list F * list F) :=
  tau <- pdiv (of_Z 1) rate ;;
  r0 <- r_det td rate ;;
  P <- _inner_loop_pds_zhang N tau r0 td tb limit_k ;;
  (* the warning text formats [tb / td] *)
  _ <- (if fltb (of_Z 100 .* td) tb then pdiv tb td else Ok (of_Z 0)) ;;
  maxf <- pdiv (of_Z 1 ./ of_Z 2) tb ;;
  df <- pdiv maxf (of_Z (Z.of_nat (length P))) ;;
  freqs <- arange (of_Z 0) maxf df ;;
  Ok (freqs, P).

End Model.

(** ** Exact arithmetic: the real numbers

    Every real is finite, so [int] and [**] never raise here.  [ln] is total
    in the library ([ln x = 0] for [x <= 0]) whereas [np.log10] returns
    [-inf] at [0] and NaN below: the two agree on the branch taken by
    [direct_formula] for [x >= 0], the only arguments [h] passes to [Gn]
    when [tau > 0], and the statements below stay in that range. *)

Definition Reqb (x y : R) : bool := if Req_dec_T x y then true else false.
Definition Rltb (x y : R) : bool := if Rlt_dec x y then true else false.

(** Rounding toward zero and rounding up, from the integer part. *)
Definition Rtrunc (x : R) : Z :=
  if Rle_dec 0 x then Int_part x else (- Int_part (- x))%Z.
Definition Rceil (x : R) : Z := (- Int_part (- x))%Z.

#[export] Instance R_num : Num R := {|
  of_Z := IZR;
  fadd := Rplus;
  fsub := Rminus;
  fmul := Rmult;
  fdiv := Rdiv;
  fneg := Ropp;
  fabs := Rabs;
  feqb := Reqb;
  fltb := Rltb;
  fexp := exp;
  flog10 := fun x => (ln x / ln 10)%R;
  fcos := cos;
  fsqrt := sqrt;
  fpow := powerRZ;
  fpi := PI;
  is_nan := fun _ => false;
  is_inf := fun _ => false;
  trunc := Rtrunc;
  fceil := Rceil
|}.

(** ** IEEE binary64: Rocq's primitive floats

    The arithmetic, [sqrt] and the comparisons are those of the processor.
    [exp], [log10], [cos] and [pow] belong to the C library and are taken as
    parameters. *)

Record Libm : Type := {
  lm_exp : float -> float;
  lm_log10 : float -> float;
  lm_cos : float -> float;
  lm_pow : float -> Z -> float
}.

(** [float(z)]: the integer rounded to the nearest binary64. *)
Definition b64_of_Z (z : Z) : float :=
  SF2Prim (binary_normalize prec emax z 0 false).

(** The integer part of a finite float, and the least integer above it. *)
Definition b64_trunc (x : float) : Z :=
  match Prim2SF x with
  | S754_finite s m e =>
      let a := if (0 <=? e)%Z then (Zpos m * 2 ^ e)%Z
               else (Zpos m / 2 ^ (- e))%Z in
      if s then (- a)%Z else a
  | _ => 0%Z
  end.

Definition b64_ceil (x : float) : Z :=
  match Prim2SF x with
  | S754_finite s m e =>
      if (0 <=? e)%Z then
        (if s then - (Zpos m * 2 ^ e) else Zpos m * 2 ^ e)%Z
      else
        (if s then - (Zpos m / 2 ^ (- e))
         else - ((- Zpos m) / 2 ^ (- e)))%Z
  | _ => 0%Z
  end.

Definition b64_num (L : Libm) : Num float := {|
  of_Z := b64_of_Z;
  fadd := PrimFloat.add;
  fsub := PrimFloat.sub;
  fmul := PrimFloat.mul;
  fdiv := PrimFloat.div;
  fneg := PrimFloat.opp;
  fabs := PrimFloat.abs;
  feqb := PrimFloat.eqb;
  fltb := PrimFloat.ltb;
  fexp := lm_exp L;
  flog10 := lm_log10 L;
  fcos := lm_cos L;
  fsqrt := PrimFloat.sqrt;
  fpow := lm_pow L;
  fpi := 0x1.921fb54442d18p+1%float;
  is_nan := PrimFloat.is_nan;
  is_inf := PrimFloat.is_infinity;
  trunc := b64_trunc;
  fceil := b64_ceil
|}.

(** A C library known only by the values the standard fixes at zero; it
    answers NaN elsewhere.  The binary64 statements hold for every library
    that has these values, and are run on this one. *)
Definition libm_at_zero : Libm := {|
  lm_exp := fun x => if PrimFloat.eqb x 0 then 1%float else nan;
  lm_log10 := fun x => if PrimFloat.eqb x 0 then neg_infinity else nan;
  lm_cos := fun x => if PrimFloat.eqb x 0 then 1%float else nan;
  lm_pow := fun x m =>
    if (m =? 0)%Z then 1%float
    else if PrimFloat.eqb x 0 then 0%float else nan
|}.

(** ** The formulas of the specification, in exact arithmetic

    Each definition below follows the words of the specification; the
    theorems compare it with the function of the source. *)

Local Open Scope R_scope.

(** [Σ_{k in ks} f k], summed left to right from [0]. *)
Definition Rsum (f : Z -> R) (ks : list Z) : R :=
  fold_left (fun s k => s + f k) ks 0.

(** §4.4: [N0 = max(1, bin_time/dead_time + 1)], rounded down. *)
Definition N0_spec (td tb : R) : Z := Int_part (Rmax 1 (tb / td + 1)).

(** The value a call has returned; [0] stands for a call that raised. *)
Definition returned (r : result R) : R :=
  match r with
  | Ok v => v
  | Err _ => 0
  end.

(** §4.4: [A(0) = r0 * bin_time * (1 + 2 * Σ_{n=1}^{N0} BlockTerm(1, n))],
    for the values [H n] of [BlockTerm(1, n)]. *)
Definition A0_spec (r0 td tb : R) (H : Z -> R) : R :=
  r0 * tb * (1 + 2 * Rsum H (range 1 (N0_spec td tb + 1))).

(** §4.4: [N_k = 3 * max(1, (k+2)*bin_time/dead_time)], rounded down. *)
Definition Nk_spec (k : Z) (td tb : R) : Z :=
  Int_part (3 * Rmax 1 ((IZR k + 2) * tb / td)).

(** §4.4: [A(k) = r0 * bin_time * Σ_{n=1}^{N_k}
    (BlockTerm(k+1, n) - 2 * BlockTerm(k, n) + BlockTerm(k-1, n))], for the
    values [H j n] of [BlockTerm(j, n)]. *)
Definition A_spec (k : Z) (r0 td tb : R) (H : Z -> Z -> R) : R :=
  r0 * tb
  * Rsum (fun n => H (k + 1)%Z n - 2 * H k n + H (k - 1)%Z n)
      (range 1 (Nk_spec k td tb + 1)).

(** §4.5: [B_raw(k) = c_k * (A(k) - r0² * bin_time²) / (r0 * bin_time)],
    [c_0 = 2] and [c_k = 4] otherwise. *)
Definition c_spec (k : Z) : R := if (k =? 0)%Z then 2 else 4.

Definition B_raw_spec (k : Z) (r0 td tb tau : R) : result R :=
  a <- A_single_k k r0 td tb tau ;;
  Ok (c_spec k * (a - r0 ^ 2 * tb ^ 2) / (r0 * tb)).

(** §4.6: [P[j] = safe_B(0) + Σ_{k=1}^{min(N, limit_k)-1}
    (N-k)/N * safe_B(k) * cos(2π j k / N)], for the values [B k] of
    [safe_B]. *)
Definition P_spec (N limit_k : Z) (B : Z -> R) (j : Z) : R :=
  B 0%Z
  + Rsum (fun k => IZR (N - k) / IZR N * B k * cos (2 * PI * IZR j * IZR k / IZR N))
      (range 1 (Z.min N limit_k)).

(** §4.6: the frequency axis [0, df, 2 df, ...] of [n] bins,
    [df = maxf / n] and [maxf = 0.5 / bin_time]. *)
Definition freqs_spec (n : Z) (tb : R) : list R :=
  map (fun i => IZR i * (0.5 / tb / IZR n)) (range 0 n).

Local Close Scope R_scope.

(** ** The entry points on one lag or on a sequence of lags

    [A], [safe_B] and [B] accept one lag or an iterable of lags
    ([isinstance(k, Iterable)]) and return one value or an array of the same
    length.  [check_A] also draws a figure, which is not modelled: the
    embedding keeps what it computes and returns. *)

Inductive lag_arg : Type :=
| Lag (k : Z)
| Lags (ks : list Z).

Inductive lag_val (F : Type) : Type :=
| Val (v : F)
| Vals (vs : list F).

Arguments Val {F} v.
Arguments Vals {F} vs.

Section EntryPoints.

Context {F : Type} {num : Num F}.
Local Open Scope num_scope.
Local Open Scope Z_scope.

Definition INFINITE : Z := 699.

Definition A (k : lag_arg) (r0 td tb tau : F) : result (lag_val F) :=
  match k with
  | Lags ks =>
      vs <- mapM (fun ki => A_single_k ki r0 td tb tau) ks ;; Ok (Vals vs)
  | Lag k => v <- A_single_k k r0 td tb tau ;; Ok (Val v)
  end.

Definition limit_A (rate td tb : F) : result F :=
  r0 <- r_det td rate ;;
  r2 <- ppow r0 2 ;;
  t2 <- ppow tb 2 ;;
  Ok (r2 .* t2).

(** On one lag the source calls [safe_B_single_k(int(k), ...)]; the lag is
    an integer here and [int] leaves it as it is. *)
Definition safe_B (k : lag_arg) (r0 td tb tau : F) (limit_k : Z)
  : result (lag_val F) :=
  match k with
  | Lags ks =>
      vs <- mapM (fun ki => safe_B_single_k ki r0 td tb tau limit_k) ks ;;
      Ok (Vals vs)
  | Lag k => v <- safe_B_single_k k r0 td tb tau limit_k ;; Ok (Val v)
  end.

Definition B (k : lag_arg) (r0 td tb tau : F) (limit_k : Z)
  : result (lag_val F) :=
  safe_B k r0 td tb tau limit_k.

(** [check_A]: the lags [np.arange(0, max_k + 1)] and the values of [A] on
    them.  The lags are numpy integers there, for which the quotients by
    [td] and [tau] inside [A_single_k] follow IEEE instead of raising; the
    two agree whenever [td] and [tau] are not zero. *)
Definition check_A (rate td tb : F) (max_k : Z) : result (list Z * list F) :=
  tau <- pdiv (of_Z 1) rate ;;
  r0 <- r_det td rate ;;
  _ <- limit_A rate td tb ;;
  let k_values := range 0 (max_k + 1) in
  A_values <- A (Lags k_values) r0 td tb tau ;;
  match A_values with
  | Vals vs => Ok (k_values, vs)
  | Val v => Ok (k_values, [v])
  end.

End EntryPoints.

(** ** The table read as a parameter

    [e_m_x_x_over_factorial] reads [__INVERSE_FACTORIALS[m]] with no test on
    [m].  What a read outside the array does is decided by what runs the
    function, not by the function: the decorator [njit], imported from
    [stingray.utils], either leaves the plain Python function, where numpy's
    indexing raises [IndexError] ([getitem]), or compiles it, and compiled
    code need not test its indices.  The two functions that reach the table are
    therefore given once more with the read [rd] as a parameter; every other
    operation is as above, and with [rd := getitem] they are
    [e_m_x_x_over_factorial] and [Gn]. *)

Section TableRead.

Context {F : Type} {num : Num F}.
Local Open Scope num_scope.
Local Open Scope Z_scope.

Variable rd : list F -> Z -> result F.




End TableRead.


(** * Properties *)

Set Warnings "-inexact-float".

(** ** Lists of indices and loops *)

Lemma range_length (a b : Z) : length (range a b) = Z.to_nat (b - a).
Proof. unfold range. now rewrite length_map, length_seq. Qed.

Lemma range_nil (a b : Z) : (b <= a)%Z -> range a b = [].
Proof.
  intros Hab. unfold range.
  replace (Z.to_nat (b - a)) with 0%nat by lia. reflexivity.
Qed.

Lemma range_In (a b n : Z) : In n (range a b) <-> (a <= n < b)%Z.
Proof.
  unfold range. rewrite in_map_iff. split.
  - intros [i [<- Hi]]. apply in_seq in Hi. lia.
  - intros Hn. exists (Z.to_nat (n - a)). split; [lia|].
    apply in_seq. lia.
Qed.

Lemma range_app (a b c : Z) :
  (a <= b)%Z -> (b <= c)%Z -> range a c = range a b ++ range b c.
Proof.
  intros Hab Hbc. unfold range.
  replace (Z.to_nat (c - a)) with (Z.to_nat (b - a) + Z.to_nat (c - b))%nat by lia.
  rewrite seq_app, map_app. f_equal.
  rewrite Nat.add_0_l.
  replace (seq (Z.to_nat (b - a)) (Z.to_nat (c - b)))
    with (map (fun i => (Z.to_nat (b - a) + i)%nat) (seq 0 (Z.to_nat (c - b)))).
  - rewrite map_map. apply map_ext. intros i. lia.
  - generalize (Z.to_nat (c - b)) as k. generalize (Z.to_nat (b - a)) as s.
    intros s k. revert s. induction k as [|k IH]; intros s; [reflexivity|].
    rewrite seq_S, map_app, IH. cbn [map]. rewrite Nat.add_0_l.
    replace (s + k)%nat with (s + 0 + k)%nat at 2 by lia.
    rewrite <- seq_S. replace (s + 0)%nat with s by lia. reflexivity.
Qed.

Lemma range_cons (a b : Z) : (a < b)%Z -> range a b = a :: range (a + 1) b.
Proof.
  intros Hab. rewrite (range_app a (a + 1) b) by lia.
  unfold range at 1. replace (Z.to_nat (a + 1 - a)) with 1%nat by lia.
  cbn. now rewrite Z.add_0_r.
Qed.

Lemma range_snoc (a b : Z) : (a <= b)%Z -> range a (b + 1) = range a b ++ [b].
Proof.
  intros Hab. rewrite (range_app a b (b + 1)) by lia. f_equal.
  rewrite range_cons by lia. now rewrite range_nil by lia.
Qed.

Lemma accumulate_app {F : Type} (add : F -> F -> F) (f : Z -> result F)
    (xs ys : list Z) (s : F) :
  accumulate add f (xs ++ ys) s
  = (t <- accumulate add f xs s ;; accumulate add f ys t).
Proof.
  revert s. induction xs as [|x xs IH]; intros s; cbn; [reflexivity|].
  destruct (f x); cbn; [apply IH | reflexivity].
Qed.

(** A loop whose body raises at some index raises. *)
Lemma accumulate_raises {F : Type} (add : F -> F -> F) (f : Z -> result F)
    (xs : list Z) (s : F) (x : Z) (e : exn) :
  In x xs -> f x = Err e -> is_ok (accumulate add f xs s) = false.
Proof.
  revert s. induction xs as [|y xs IH]; intros s Hin Hx; [destruct Hin|].
  cbn. destruct Hin as [-> | Hin].
  - now rewrite Hx.
  - destruct (f y); cbn; [eauto | reflexivity].
Qed.

(** When the body can only raise [e], a raising index makes the loop raise [e]. *)
Lemma accumulate_raises_only {F : Type} (add : F -> F -> F) (f : Z -> result F)
    (xs : list Z) (s : F) (x : Z) (e : exn) :
  (forall y e', In y xs -> f y = Err e' -> e' = e) ->
  In x xs -> f x = Err e -> accumulate add f xs s = Err e.
Proof.
  revert s. induction xs as [|y xs IH]; intros s Honly Hin Hx; [destruct Hin|].
  cbn. destruct (f y) as [v|e'] eqn:Hy; cbn.
  - destruct Hin as [-> | Hin]; [congruence|].
    apply IH; auto. intros z e'' Hz. apply Honly. now right.
  - f_equal. apply (Honly y); [now left | assumption].
Qed.

Lemma mapM_length {A B : Type} (f : A -> result B) (xs : list A) (ys : list B) :
  mapM f xs = Ok ys -> length ys = length xs.
Proof.
  revert ys. induction xs as [|x xs IH]; intros ys; cbn.
  - now intros [= <-].
  - destruct (f x); cbn; [|discriminate].
    destruct (mapM f xs); cbn; [|discriminate].
    intros [= <-]. cbn. f_equal. now apply IH.
Qed.

Lemma mapM_ok {A B : Type} (f : A -> result B) (g : A -> B) (xs : list A) :
  (forall x, In x xs -> f x = Ok (g x)) -> mapM f xs = Ok (map g xs).
Proof.
  induction xs as [|x xs IH]; intros Hf; cbn; [reflexivity|].
  rewrite Hf by now left. cbn. rewrite IH; [reflexivity|].
  intros y Hy. apply Hf. now right.
Qed.

(** ** Exact arithmetic: the operations *)

Ltac rsimp :=
  cbn [of_Z fadd fsub fmul fdiv fneg fabs feqb fltb fexp flog10 fcos fsqrt
       fpow fpi is_nan is_inf trunc fceil R_num] in *.

Lemma Reqb_true (x y : R) : Reqb x y = true <-> x = y.
Proof. unfold Reqb. destruct (Req_dec_T x y); split; congruence. Qed.

Lemma Reqb_false (x y : R) : Reqb x y = false <-> x <> y.
Proof. unfold Reqb. destruct (Req_dec_T x y); split; congruence. Qed.

Lemma Rltb_true (x y : R) : Rltb x y = true <-> (x < y)%R.
Proof. unfold Rltb. destruct (Rlt_dec x y); split; congruence. Qed.

Lemma Rltb_false (x y : R) : Rltb x y = false <-> (y <= x)%R.
Proof.
  unfold Rltb. destruct (Rlt_dec x y); split; intros; try congruence; lra.
Qed.

Lemma pdiv_R (a b : R) : b <> 0%R -> pdiv a b = Ok (a / b)%R.
Proof.
  intros Hb. unfold pdiv. rsimp.
  now rewrite (proj2 (Reqb_false b 0) Hb).
Qed.

Lemma pdiv_R_zero (a : R) : pdiv a 0%R = Err ZeroDivisionError.
Proof. unfold pdiv. rsimp. now rewrite (proj2 (Reqb_true 0 0) eq_refl). Qed.

Lemma ppow_R (x : R) (m : Z) : ppow x m = Ok (powerRZ x m).
Proof. reflexivity. Qed.

Lemma Int_part_bounds (x : R) : (IZR (Int_part x) <= x < IZR (Int_part x) + 1)%R.
Proof. destruct (base_Int_part x). lra. Qed.

Lemma Int_part_IZR (z : Z) : Int_part (IZR z) = z.
Proof. symmetry. apply Int_part_spec. lra. Qed.

Lemma Int_part_le (x : R) (z : Z) : (IZR z <= x)%R -> (z <= Int_part x)%Z.
Proof.
  intros Hz. destruct (Int_part_bounds x) as [_ Hx].
  assert (H : (IZR z < IZR (Int_part x + 1))%R) by (rewrite plus_IZR; lra).
  apply lt_IZR in H. lia.
Qed.

Lemma Int_part_lt (x : R) (z : Z) : (x < IZR z)%R -> (Int_part x < z)%Z.
Proof.
  intros Hz. destruct (Int_part_bounds x) as [Hx _].
  apply lt_IZR. lra.
Qed.

(** On the reals [int(max(1, v))] is the integer part of [Rmax 1 v]. *)
Lemma int_max1_R (v : R) : int_max1 v = Ok (Int_part (Rmax 1 v)).
Proof.
  unfold int_max1, pint. rsimp. unfold Rltb.
  destruct (Rlt_dec 1 v) as [Hv | Hv].
  - rewrite Rmax_right by lra. unfold Rtrunc.
    destruct (Rle_dec 0 v); [reflexivity | lra].
  - rewrite Rmax_left by lra. now rewrite Int_part_IZR.
Qed.

(** ** The inverse-factorial table *)

Lemma range_nth_error (a b : Z) (i : nat) :
  (i < Z.to_nat (b - a))%nat -> nth_error (range a b) i = Some (a + Z.of_nat i)%Z.
Proof.
  intros Hi. unfold range. rewrite nth_error_map.
  rewrite nth_error_seq. 
  destruct (Nat.ltb_spec i (Z.to_nat (b - a))); [reflexivity | lia].
Qed.

Section Table.

Context {F : Type} {num : Num F}.
Local Open Scope num_scope.

Lemma INVERSE_FACTORIALS_length :
  length (__INVERSE_FACTORIALS (F := F)) = 100%nat.
Proof. unfold __INVERSE_FACTORIALS. now rewrite length_map, range_length. Qed.

Lemma getitem_table (m : Z) :
  (0 <= m < MAX_FACTORIAL)%Z ->
  getitem __INVERSE_FACTORIALS m = Ok (of_Z 1 ./ of_Z (factorial m)).
Proof.
  unfold MAX_FACTORIAL. intros Hm. unfold getitem.
  rewrite INVERSE_FACTORIALS_length.
  destruct (Z.ltb_spec m 0); [lia|].
  destruct (Z.ltb_spec m 0); [lia|].
  destruct (Z.leb_spec (Z.of_nat 100) m); [lia|]. cbn [orb].
  unfold __INVERSE_FACTORIALS. rewrite nth_error_map.
  rewrite range_nth_error by (unfold MAX_FACTORIAL; lia).
  cbn [option_map]. now rewrite Z.add_0_l, Z2Nat.id by lia.
Qed.

Lemma getitem_table_out (m : Z) :
  (MAX_FACTORIAL <= m)%Z ->
  getitem (__INVERSE_FACTORIALS (F := F)) m = Err IndexError.
Proof.
  unfold MAX_FACTORIAL. intros Hm. unfold getitem.
  rewrite INVERSE_FACTORIALS_length.
  destruct (Z.ltb_spec m 0); [lia|].
  destruct (Z.ltb_spec m 0); [lia|].
  destruct (Z.leb_spec (Z.of_nat 100) m); [reflexivity | lia].
Qed.

(** Whatever the arithmetic, the direct formula returns no value at an index
    outside the table. *)
Lemma direct_formula_out (x : F) (m : Z) :
  (MAX_FACTORIAL <= m)%Z -> direct_formula x m = true ->
  is_ok (e_m_x_x_over_factorial x m) = false.
Proof.
  intros Hm Hd. unfold e_m_x_x_over_factorial.
  destruct (Z.eqb_spec m 0); [unfold MAX_FACTORIAL in Hm; lia|].
  rewrite andb_false_r, Hd.
  destruct (ppow x m); cbn; [|reflexivity].
  now rewrite getitem_table_out.
Qed.

End Table.

(** ** Exact arithmetic: the kernel *)

Lemma ln_0 : ln 0 = 0%R.
Proof.
  unfold ln. destruct (Rlt_dec 0 0) as [H | H]; [|reflexivity].
  exfalso. exact (Rlt_irrefl 0 H).
Qed.

Lemma factorial_0 : factorial 0 = 1%Z.
Proof. reflexivity. Qed.

Lemma powerRZ_0_l (m : Z) : (1 <= m)%Z -> powerRZ 0 m = 0%R.
Proof.
  intros Hm. destruct m as [|p|p]; try lia.
  cbn. apply pow_i. lia.
Qed.

(** With [m = 0] the direct formula is always selected on the reals. *)
Lemma direct_formula_R_m0 (x : R) : direct_formula x 0 = true.
Proof. unfold direct_formula. rsimp. apply Rltb_true. lra. Qed.

Lemma direct_formula_R_x0 (m : Z) : direct_formula 0%R m = true.
Proof.
  unfold direct_formula. rsimp. apply Rltb_true. rewrite ln_0. lra.
Qed.

Lemma e_m_x_x_over_factorial_0_0 : e_m_x_x_over_factorial 0%R 0 = Ok 1%R.
Proof.
  unfold e_m_x_x_over_factorial. rsimp.
  now rewrite (proj2 (Reqb_true 0 0) eq_refl).
Qed.

Lemma e_m_x_x_over_factorial_x_0 (x : R) :
  e_m_x_x_over_factorial x 0 = Ok (exp (- x)).
Proof.
  unfold e_m_x_x_over_factorial. rsimp.
  destruct (Req_dec_T x 0) as [-> | Hx].
  - rewrite (proj2 (Reqb_true 0 0) eq_refl). cbn.
    now rewrite Ropp_0, exp_0.
  - rewrite (proj2 (Reqb_false x 0) Hx). cbn [andb].
    rewrite direct_formula_R_m0, ppow_R. cbn [bind].
    rewrite getitem_table by (unfold MAX_FACTORIAL; lia). cbn [bind].
    rsimp. rewrite factorial_0. f_equal. cbn. field.
Qed.

Lemma e_m_x_x_over_factorial_0_m (m : Z) :
  (1 <= m < MAX_FACTORIAL)%Z -> e_m_x_x_over_factorial 0%R m = Ok 0%R.
Proof.
  intros Hm. unfold e_m_x_x_over_factorial. rsimp.
  destruct (Z.eqb_spec m 0); [lia|]. rewrite andb_false_r.
  rewrite direct_formula_R_x0, ppow_R. cbn [bind].
  rewrite getitem_table by lia. cbn [bind]. rsimp.
  rewrite powerRZ_0_l by lia. f_equal. lra.
Qed.

Lemma e_m_x_x_over_factorial_0_out (m : Z) :
  (MAX_FACTORIAL <= m)%Z -> e_m_x_x_over_factorial 0%R m = Err IndexError.
Proof.
  intros Hm. unfold e_m_x_x_over_factorial. rsimp.
  destruct (Z.eqb_spec m 0); [unfold MAX_FACTORIAL in Hm; lia|].
  rewrite andb_false_r.
  rewrite direct_formula_R_x0, ppow_R. cbn [bind].
  now rewrite getitem_table_out.
Qed.

Lemma Gn_break_R_x0 (m : Z) (v s : R) : Gn_break 0%R m v s = false.
Proof.
  unfold Gn_break. rsimp. now rewrite (proj2 (Reqb_true 0 0) eq_refl).
Qed.

(** At [x = 0] the terms of index [1 <= m < MAX_FACTORIAL] leave the sum as
    it is, and the loop never leaves early. *)
Lemma Gn_loop_R_x0_tail (n : Z) (ms : list Z) (s : R) :
  (forall m, In m ms -> (1 <= m < MAX_FACTORIAL)%Z) ->
  Gn_loop 0%R n ms s = Ok s.
Proof.
  revert s. induction ms as [|m ms IH]; intros s Hms; [reflexivity|].
  cbn [Gn_loop]. rewrite e_m_x_x_over_factorial_0_m by (apply Hms; now left).
  cbn [bind]. rewrite Gn_break_R_x0. rsimp.
  replace (s + 0 * IZR (n - m))%R with s by lra.
  apply IH. intros m' Hm'. apply Hms. now right.
Qed.

Lemma Gn_R_x0 (n : Z) : (0 <= n <= MAX_FACTORIAL)%Z -> Gn 0%R n = Ok (IZR n).
Proof.
  intros Hn. unfold Gn.
  destruct (Z.eq_dec n 0) as [-> | Hn0]; [reflexivity|].
  rewrite range_cons by lia. cbn [Gn_loop].
  rewrite e_m_x_x_over_factorial_0_0. cbn [bind].
  rewrite Gn_break_R_x0. rsimp.
  rewrite Gn_loop_R_x0_tail.
  - f_equal. rewrite Z.sub_0_r. lra.
  - intros m Hm. apply range_In in Hm. lia.
Qed.

(** At [x = 0] with more than [MAX_FACTORIAL] terms the loop reaches the
    index [MAX_FACTORIAL] and the table access raises. *)
Lemma Gn_R_x0_out (n : Z) : (MAX_FACTORIAL < n)%Z -> Gn 0%R n = Err IndexError.
Proof.
  intros Hn. unfold Gn. unfold MAX_FACTORIAL in Hn.
  rewrite (range_app 0 100 n) by lia.
  rewrite (range_cons 0 100) by lia. cbn [app Gn_loop].
  rewrite e_m_x_x_over_factorial_0_0. cbn [bind].
  rewrite Gn_break_R_x0. rsimp.
  generalize (0 + 1 * IZR (n - 0))%R as s. intros s.
  assert (Htail : forall ms s', (forall m, In m ms -> (1 <= m < MAX_FACTORIAL)%Z) ->
            Gn_loop 0%R n (ms ++ range 100 n) s' = Err IndexError).
  { induction ms as [|m ms IH]; intros s' Hms.
    - cbn [app]. rewrite range_cons by lia. cbn [Gn_loop].
      now rewrite e_m_x_x_over_factorial_0_out by (unfold MAX_FACTORIAL; lia).
    - cbn [app Gn_loop].
      rewrite e_m_x_x_over_factorial_0_m by (apply Hms; now left).
      cbn [bind]. rewrite Gn_break_R_x0. apply IH.
      intros m' Hm'. apply Hms. now right. }
  apply Htail. intros m Hm. apply range_In in Hm. unfold MAX_FACTORIAL. lia.
Qed.

(** ** The table read as a parameter: what reaches the table *)











(** ** Exact arithmetic: the block term [h] *)

Lemma h_R_outside (k n : Z) (td tb tau : R) :
  (IZR k * tb - IZR n * td < 0)%R -> h k n td tb tau = Ok 0%R.
Proof.
  intros Hf. unfold h. rsimp. now rewrite (proj2 (Rltb_true _ _) Hf).
Qed.

Lemma h_R_inside (k n : Z) (td tb tau : R) :
  (0 <= IZR k * tb - IZR n * td)%R -> tb <> 0%R -> tau <> 0%R ->
  h k n td tb tau
  = (g <- Gn ((IZR k * tb - IZR n * td) / tau)%R n ;;
     Ok (IZR k - IZR n * (td + tau) / tb + tau / tb * g)%R).
Proof.
  intros Hf Htb Htau. unfold h. rsimp.
  rewrite (proj2 (Rltb_false _ _) Hf).
  now rewrite !pdiv_R by assumption.
Qed.

Lemma accumulate_R_zero (f : Z -> result R) (xs : list Z) (s : R) :
  (forall x, In x xs -> f x = Ok 0%R) -> accumulate Rplus f xs s = Ok s.
Proof.
  revert s. induction xs as [|x xs IH]; intros s Hf; [reflexivity|].
  cbn. rewrite Hf by now left. cbn.
  replace (s + 0)%R with s by lra.
  apply IH. intros y Hy. apply Hf. now right.
Qed.

(** ** Autocovariance terms *)

(** Beyond [3 * int(max(1, (k+2)*tb/td))] every summand of Eq. 39 is zero. *)
Lemma A_term_R_outside (k n : Z) (td tb tau : R) :
  (0 < td)%R -> (0 < tb)%R -> (0 <= k)%Z ->
  (3 * Int_part (Rmax 1 (IZR (k + 2) * tb / td)) <= n)%Z ->
  A_term k td tb tau n = Ok 0%R.
Proof.
  intros Htd Htb Hk Hn.
  pose proof (Int_part_bounds (Rmax 1 (IZR (k + 2) * tb / td))) as [_ Hup].
  pose proof (Rmax_r 1 (IZR (k + 2) * tb / td)) as Hmax.
  pose proof (Rmax_l 1 (IZR (k + 2) * tb / td)) as Hone.
  set (M := Int_part (Rmax 1 (IZR (k + 2) * tb / td))) in *.
  assert (HM : (1 <= M)%Z) by (apply Int_part_le, Rmax_l).
  assert (HnM : (IZR M + 2 <= IZR n)%R).
  { replace (IZR M + 2)%R with (IZR (M + 2)) by (rewrite plus_IZR; lra).
    apply IZR_le. lia. }
  set (q := (IZR (k + 2) * tb / td)%R) in *.
  assert (Hq : (IZR (k + 2) * tb = q * td)%R) by (unfold q; field; lra).
  rewrite plus_IZR in Hq.
  assert (Hk0 : (0 <= IZR k)%R) by (apply IZR_le; lia).
  assert (Hout : (IZR (k + 1) * tb - IZR n * td < 0)%R).
  { rewrite plus_IZR. nra. }
  unfold A_term.
  rewrite (h_R_outside (k + 1)) by assumption.
  rewrite (h_R_outside k) by (rewrite plus_IZR in Hout; nra).
  rewrite (h_R_outside (k - 1)) by (rewrite plus_IZR in Hout; rewrite minus_IZR; nra).
  cbn [bind]. rsimp. f_equal. ring.
Qed.

(** ** Which exceptions the kernel can raise, in exact arithmetic *)

Lemma getitem_err {F : Type} {num : Num F} (a : list F) (i : Z) (e : exn) :
  getitem a i = Err e -> e = IndexError.
Proof.
  unfold getitem.
  destruct ((_ <? 0)%Z || _); [congruence|].
  destruct (nth_error a _); congruence.
Qed.

Lemma e_m_x_x_over_factorial_R_err (x : R) (m : Z) (e : exn) :
  e_m_x_x_over_factorial x m = Err e -> e = IndexError.
Proof.
  unfold e_m_x_x_over_factorial.
  destruct (feqb x (of_Z 0) && (m =? 0)%Z); [discriminate|].
  destruct (direct_formula x m) eqn:Hd.
  - rewrite ppow_R. cbn [bind].
    destruct (getitem __INVERSE_FACTORIALS m) eqn:Hg; cbn [bind]; [discriminate|].
    intros [= <-]. now apply getitem_err in Hg.
  - destruct (Z.eq_dec m 0) as [-> | Hm].
    + now rewrite direct_formula_R_m0 in Hd.
    + rsimp. rewrite pdiv_R by now apply not_0_IZR. discriminate.
Qed.

Lemma e_m_x_x_over_factorial_R_ok (x : R) (m : Z) :
  (0 <= m < MAX_FACTORIAL)%Z -> exists v, e_m_x_x_over_factorial x m = Ok v.
Proof.
  intros Hm. unfold e_m_x_x_over_factorial.
  destruct (feqb x (of_Z 0) && (m =? 0)%Z); [eauto|].
  destruct (direct_formula x m) eqn:Hd.
  - rewrite ppow_R. cbn [bind]. rewrite getitem_table by assumption. cbn [bind]. eauto.
  - destruct (Z.eq_dec m 0) as [-> | Hm0].
    + now rewrite direct_formula_R_m0 in Hd.
    + rsimp. rewrite pdiv_R by now apply not_0_IZR. cbn [bind]. eauto.
Qed.

Lemma Gn_loop_R_err (x : R) (n : Z) (ms : list Z) (s : R) (e : exn) :
  Gn_loop x n ms s = Err e -> e = IndexError.
Proof.
  revert s. induction ms as [|m ms IH]; intros s; cbn [Gn_loop]; [discriminate|].
  destruct (e_m_x_x_over_factorial x m) as [v|e'] eqn:He; cbn [bind].
  - destruct (Gn_break _ _ _ _); [discriminate | apply IH].
  - intros [= <-]. now apply e_m_x_x_over_factorial_R_err in He.
Qed.

Lemma Gn_loop_R_ok (x : R) (n : Z) (ms : list Z) (s : R) :
  (forall m, In m ms -> (0 <= m < MAX_FACTORIAL)%Z) ->
  exists g, Gn_loop x n ms s = Ok g.
Proof.
  revert s. induction ms as [|m ms IH]; intros s Hms; cbn [Gn_loop]; [eauto|].
  destruct (e_m_x_x_over_factorial_R_ok x m) as [v ->]; [apply Hms; now left|].
  cbn [bind]. destruct (Gn_break _ _ _ _); [eauto|].
  apply IH. intros m' Hm'. apply Hms. now right.
Qed.

Lemma Gn_R_ok (x : R) (n : Z) :
  (n <= MAX_FACTORIAL)%Z -> exists g, Gn x n = Ok g.
Proof.
  intros Hn. apply Gn_loop_R_ok. intros m Hm. apply range_In in Hm. lia.
Qed.

Lemma h_R_err (k n : Z) (td tb tau : R) (e : exn) :
  tb <> 0%R -> tau <> 0%R -> h k n td tb tau = Err e -> e = IndexError.
Proof.
  intros Htb Htau. unfold h.
  destruct (fltb _ _); [discriminate|].
  rewrite !pdiv_R by assumption. cbn [bind].
  destruct (Gn _ n) as [g|e'] eqn:Hg; cbn [bind]; [discriminate|].
  intros [= <-]. now apply Gn_loop_R_err in Hg.
Qed.

Lemma h_R_ok (k n : Z) (td tb tau : R) :
  tb <> 0%R -> tau <> 0%R -> (n <= MAX_FACTORIAL)%Z ->
  exists v, h k n td tb tau = Ok v.
Proof.
  intros Htb Htau Hn. unfold h.
  destruct (fltb _ _); [eauto|].
  rewrite !pdiv_R by assumption. cbn [bind].
  destruct (Gn_R_ok ((of_Z k .* tb .- of_Z n .* td) / tau)%R%num n Hn) as [g Hg].
  rsimp. rewrite Hg. cbn [bind]. eauto.
Qed.

Lemma A_term_R_err (k n : Z) (td tb tau : R) (e : exn) :
  tb <> 0%R -> tau <> 0%R -> A_term k td tb tau n = Err e -> e = IndexError.
Proof.
  intros Htb Htau. unfold A_term.
  destruct (h (k + 1) n td tb tau) eqn:H1; cbn [bind];
    [|intros [= <-]; now apply h_R_err in H1].
  destruct (h k n td tb tau) eqn:H2; cbn [bind];
    [|intros [= <-]; now apply h_R_err in H2].
  destruct (h (k - 1) n td tb tau) eqn:H3; cbn [bind];
    [discriminate | intros [= <-]; now apply h_R_err in H3].
Qed.

Lemma A_term_R_ok (k n : Z) (td tb tau : R) :
  tb <> 0%R -> tau <> 0%R -> (n <= MAX_FACTORIAL)%Z ->
  exists v, A_term k td tb tau n = Ok v.
Proof.
  intros Htb Htau Hn. unfold A_term.
  destruct (h_R_ok (k + 1) n td tb tau Htb Htau Hn) as [v1 ->].
  destruct (h_R_ok k n td tb tau Htb Htau Hn) as [v2 ->].
  destruct (h_R_ok (k - 1) n td tb tau Htb Htau Hn) as [v3 ->].
  cbn [bind]. eauto.
Qed.

Lemma accumulate_ok {F : Type} (add : F -> F -> F) (f : Z -> result F)
    (xs : list Z) (s : F) :
  (forall x, In x xs -> exists v, f x = Ok v) ->
  exists t, accumulate add f xs s = Ok t.
Proof.
  revert s. induction xs as [|x xs IH]; intros s Hf; cbn; [eauto|].
  destruct (Hf x) as [v ->]; [now left|]. cbn.
  apply IH. intros y Hy. apply Hf. now right.
Qed.

Lemma accumulate_R_values (f : Z -> result R) (g : Z -> R) (xs : list Z) (s : R) :
  (forall x, In x xs -> f x = Ok (g x)) ->
  accumulate Rplus f xs s = Ok (fold_left (fun t k => (t + g k)%R) xs s).
Proof.
  revert s. induction xs as [|x xs IH]; intros s Hf; cbn; [reflexivity|].
  rewrite Hf by now left. cbn. apply IH. intros y Hy. apply Hf. now right.
Qed.

Lemma Rsum_app (f : Z -> R) (xs ys : list Z) :
  (forall y, In y ys -> f y = 0%R) -> Rsum f (xs ++ ys) = Rsum f xs.
Proof.
  intros Hys. unfold Rsum. rewrite fold_left_app.
  generalize (fold_left (fun s k => (s + f k)%R) xs 0%R) as s.
  induction ys as [|y ys IH]; intros s; [reflexivity|].
  cbn [fold_left]. rewrite Hys by now left.
  replace (s + 0)%R with s by lra.
  apply IH. intros z Hz. apply Hys. now right.
Qed.

Lemma h_R_returned (k n : Z) (td tb tau : R) :
  tb <> 0%R -> tau <> 0%R -> (n <= MAX_FACTORIAL)%Z ->
  h k n td tb tau = Ok (returned (h k n td tb tau)).
Proof.
  intros Htb Htau Hn.
  destruct (h_R_ok k n td tb tau Htb Htau Hn) as [v ->]. reflexivity.
Qed.

(** [A_single_k] returns when every index of its loop is within the table. *)
Lemma A_single_k_R_ok (k : Z) (r0 td tb tau : R) :
  (0 <= k)%Z -> (0 < td)%R -> (0 < tb)%R -> tau <> 0%R ->
  ((IZR k + 2) * tb < 34 * td)%R ->
  exists a, A_single_k k r0 td tb tau = Ok a.
Proof.
  intros Hk Htd Htb Htau Hbound.
  assert (Hk0 : (0 <= IZR k)%R) by (apply IZR_le; lia).
  unfold A_single_k. destruct (Z.eqb_spec k 0) as [-> | Hk1].
  - unfold A0. rewrite pdiv_R by lra. cbn [bind]. rsimp.
    rewrite int_max1_R. cbn [bind].
    set (M := Int_part (Rmax 1 (tb / td + 1))).
    assert (HM : (M < 35)%Z).
    { apply Int_part_lt. apply Rmax_case; [lra|].
      assert (tb / td < 34)%R; [|lra].
      apply Rmult_lt_reg_r with td; [lra|]. 
      replace (tb / td * td)%R with tb by (field; lra). lra. }
    destruct (accumulate_ok Rplus (fun n => h 1 n td tb tau) (range 1 M) 0%R) as [t ->].
    + intros n Hn. apply range_In in Hn.
      apply h_R_ok; try lra. unfold MAX_FACTORIAL. lia.
    + cbn [bind]. eauto.
  - rewrite pdiv_R by lra. cbn [bind]. rsimp. rewrite int_max1_R. cbn [bind].
    set (M := Int_part (Rmax 1 (IZR (k + 2) * tb / td))).
    assert (HM : (M < 34)%Z).
    { apply Int_part_lt. apply Rmax_case; [lra|].
      apply Rmult_lt_reg_r with td; [lra|].
      replace (IZR (k + 2) * tb / td * td)%R with (IZR (k + 2) * tb)%R by (field; lra).
      rewrite plus_IZR. lra. }
    destruct (accumulate_ok Rplus (A_term k td tb tau) (range 1 (M * 3)) 0%R) as [t ->].
    + intros n Hn. apply range_In in Hn.
      apply A_term_R_ok; try lra. unfold MAX_FACTORIAL. lia.
    + cbn [bind]. eauto.
Qed.

Lemma safe_B_single_k_R_ok (k limit_k : Z) (r0 td tb tau : R) :
  (0 <= k)%Z -> r0 <> 0%R -> (0 < td)%R -> (0 < tb)%R -> tau <> 0%R ->
  ((IZR k + 2) * tb < 34 * td)%R ->
  exists b, safe_B_single_k k r0 td tb tau limit_k = Ok b.
Proof.
  intros Hk Hr0 Htd Htb Htau Hbound. unfold safe_B_single_k.
  destruct (limit_k <? k)%Z; [eauto|].
  assert (Hnz : (r0 * tb)%R <> 0%R) by (apply Rmult_integral_contrapositive; split; lra).
  destruct (A_single_k_R_ok k r0 td tb tau Hk Htd Htb Htau Hbound) as [a Ha].
  unfold B_raw. destruct (Z.eqb_spec k 0) as [-> | Hk0];
    rewrite Ha; cbn [bind]; rewrite !ppow_R; cbn [bind]; rsimp;
    rewrite pdiv_R by assumption; eauto.
Qed.

(** ** Spectrum synthesis, in exact arithmetic *)

Lemma Rceil_IZR (n : Z) : Rceil (IZR n) = n.
Proof.
  unfold Rceil. rewrite <- opp_IZR, Int_part_IZR. lia.
Qed.

Lemma arange_R (maxf : R) (n : Z) :
  maxf <> 0%R -> (1 <= n)%Z ->
  arange 0%R maxf (maxf / IZR n)%R
  = Ok (map (fun i => (IZR i * (maxf / IZR n))%R) (range 0 n)).
Proof.
  intros Hmaxf Hn.
  assert (Hn0 : IZR n <> 0%R) by (apply not_0_IZR; lia).
  unfold arange. rsimp. cbn [orb]. f_equal.
  replace ((maxf - 0) / (maxf / IZR n))%R with (IZR n) by (field; auto).
  rewrite Rceil_IZR. apply map_ext. intros i. lra.
Qed.

Lemma mapM_all_ok {A B : Type} (f : A -> result B) (xs : list A) :
  (forall x, In x xs -> exists y, f x = Ok y) -> exists ys, mapM f xs = Ok ys.
Proof.
  induction xs as [|x xs IH]; intros Hf; cbn; [eauto|].
  destruct (Hf x) as [y ->]; [now left|]. cbn.
  destruct IH as [ys ->]; [|cbn; eauto].
  intros z Hz. apply Hf. now right.
Qed.

Lemma pds_bin_R_values (N limit_k j : Z) (tau r0 td tb : R) (B : Z -> R) :
  N <> 0%Z ->
  safe_B_single_k 0 r0 td tb tau default_limit_k = Ok (B 0%Z) ->
  (forall k, (1 <= k < Z.min N limit_k)%Z ->
     safe_B_single_k k r0 td tb tau limit_k = Ok (B k)) ->
  pds_bin N tau r0 td tb limit_k j = Ok (P_spec N limit_k B j).
Proof.
  intros HN HB0 HB. unfold pds_bin, P_spec, Rsum.
  rewrite (accumulate_R_values _
    (fun k => (IZR (N - k) / IZR N * B k
               * cos (2 * PI * IZR j * IZR k / IZR N))%R)).
  - cbn [bind]. rewrite HB0. reflexivity.
  - intros k Hk. apply range_In in Hk. unfold pds_term. rsimp.
    rewrite pdiv_R by now apply not_0_IZR. cbn [bind].
    rewrite HB by assumption. reflexivity.
Qed.

Lemma inner_loop_R_values (N limit_k : Z) (tau r0 td tb : R) (B : Z -> R) :
  (1 <= N)%Z ->
  safe_B_single_k 0 r0 td tb tau default_limit_k = Ok (B 0%Z) ->
  (forall k, (1 <= k < Z.min N limit_k)%Z ->
     safe_B_single_k k r0 td tb tau limit_k = Ok (B k)) ->
  _inner_loop_pds_zhang N tau r0 td tb limit_k
  = Ok (map (P_spec N limit_k B) (range 0 (N / 2))).
Proof.
  intros HN HB0 HB. unfold _inner_loop_pds_zhang.
  destruct (Z.ltb_spec (N / 2) 0) as [Hneg | _].
  - pose proof (Z.div_pos N 2). lia.
  - apply mapM_ok. intros j _. apply pds_bin_R_values; auto. lia.
Qed.

(** After the inner loop has returned [P], the frequency axis. *)
Lemma pds_model_zhang_R_tail (N limit_k : Z) (rate td tb : R) (P : list R) :
  (2 <= N)%Z -> (0 < rate)%R -> (0 < td)%R -> (0 < tb)%R ->
  _inner_loop_pds_zhang N (1 / rate)%R (1 / (1 / rate + td))%R td tb limit_k = Ok P ->
  pds_model_zhang N rate td tb limit_k = Ok (freqs_spec (N / 2) tb, P)
  /\ length P = Z.to_nat (N / 2).
Proof.
  intros HN Hrate Htd Htb HP.
  assert (Htau : (0 < 1 / rate)%R) by (apply Rdiv_lt_0_compat; lra).
  assert (Hhalf : (1 <= N / 2)%Z).
  { apply Z.div_le_lower_bound; lia. }
  assert (Hlen : length P = Z.to_nat (N / 2)).
  { unfold _inner_loop_pds_zhang in HP.
    destruct (N / 2 <? 0)%Z; [discriminate|].
    apply mapM_length in HP. now rewrite range_length, Z.sub_0_r in HP. }
  split; [|exact Hlen].
  unfold pds_model_zhang, r_det. rsimp.
  rewrite (pdiv_R 1 rate) by lra. cbn [bind].
  rewrite (pdiv_R 1 (1 / rate + td)) by lra. cbn [bind].
  rewrite HP. cbn [bind].
  assert (Hwarn : exists w,
            (if Rltb (100 * td) tb then pdiv tb td else Ok 0%R) = Ok w).
  { destruct (Rltb (100 * td) tb); [rewrite pdiv_R by lra|]; eauto. }
  destruct Hwarn as [w ->]. cbn [bind].
  rewrite (pdiv_R (1 / 2) tb) by lra. cbn [bind].
  rewrite Hlen, Z2Nat.id by lia.
  rewrite pdiv_R by (apply not_0_IZR; lia). cbn [bind].
  rewrite arange_R; [|apply Rgt_not_eq, Rdiv_lt_0_compat; lra | lia].
  cbn [bind]. unfold freqs_spec. do 2 f_equal.
  apply map_ext. intros i. lra.
Qed.

(** The call returns when the loops of [A] stay within the table; nothing
    is asked of [td] against [1 / rate]. *)
Lemma pds_model_zhang_R_returns (N limit_k : Z) (rate td tb : R) :
  (2 <= N)%Z -> (0 <= limit_k)%Z ->
  (0 < rate)%R -> (0 < td)%R -> (0 < tb)%R ->
  ((IZR limit_k + 2) * tb < 34 * td)%R ->
  exists P,
    pds_model_zhang N rate td tb limit_k = Ok (freqs_spec (N / 2) tb, P)
    /\ length (freqs_spec (N / 2) tb) = Z.to_nat (N / 2)
    /\ length P = Z.to_nat (N / 2).
Proof.
  intros HN Hlim Hrate Htd Htb Hbound.
  assert (Htau : (0 < 1 / rate)%R) by (apply Rdiv_lt_0_compat; lra).
  assert (Hr0 : (0 < 1 / (1 / rate + td))%R) by (apply Rdiv_lt_0_compat; lra).
  assert (Hlim0 : (0 <= IZR limit_k)%R) by (apply IZR_le; lia).
  assert (HP : exists P,
    _inner_loop_pds_zhang N (1 / rate)%R (1 / (1 / rate + td))%R td tb limit_k = Ok P).
  { unfold _inner_loop_pds_zhang.
    destruct (Z.ltb_spec (N / 2) 0) as [Hneg | _];
      [pose proof (Z.div_pos N 2); lia|].
    apply mapM_all_ok. intros j _. unfold pds_bin.
    destruct (accumulate_ok fadd
      (pds_term N (1 / rate)%R (1 / (1 / rate + td))%R td tb limit_k j)
      (range 1 (Z.min N limit_k)) (of_Z 0)) as [s ->].
    - intros k Hk. apply range_In in Hk. unfold pds_term. rsimp.
      rewrite pdiv_R by (apply not_0_IZR; lia). cbn [bind].
      destruct (safe_B_single_k_R_ok k limit_k (1 / (1 / rate + td))%R td tb (1 / rate)%R)
        as [b ->]; try lra; try lia.
      + assert (IZR k + 1 <= IZR limit_k)%R.
        { rewrite <- plus_IZR. apply IZR_le. lia. }
        nra.
      + cbn [bind]. eauto.
    - cbn [bind].
      destruct (safe_B_single_k_R_ok 0 default_limit_k (1 / (1 / rate + td))%R td tb (1 / rate)%R)
        as [b ->]; try lra; try lia.
      + nra.
      + cbn [bind]. eauto. }
  destruct HP as [P HP]. exists P.
  destruct (pds_model_zhang_R_tail N limit_k rate td tb P) as [Hcall Hlen]; auto.
  repeat split; auto.
  unfold freqs_spec. rewrite length_map, range_length. f_equal. lia.
Qed.

(** ** Preconditions *)

Lemma pds_model_zhang_R_rate_zero (N limit_k : Z) (td tb : R) :
  pds_model_zhang N 0%R td tb limit_k = Err ZeroDivisionError.
Proof. unfold pds_model_zhang. rsimp. now rewrite pdiv_R_zero. Qed.

Lemma pds_model_zhang_R_empty (N limit_k : Z) (rate td tb : R) :
  (0 <= N <= 1)%Z -> (0 < rate)%R -> (0 < td)%R -> (0 < tb)%R ->
  pds_model_zhang N rate td tb limit_k = Err ZeroDivisionError.
Proof.
  intros HN Hrate Htd Htb.
  assert (Htau : (0 < 1 / rate)%R) by (apply Rdiv_lt_0_compat; lra).
  assert (Hhalf : (N / 2 = 0)%Z) by (apply Z.div_small; lia).
  unfold pds_model_zhang, r_det, _inner_loop_pds_zhang. rsimp.
  rewrite (pdiv_R 1 rate) by lra. cbn [bind].
  rewrite (pdiv_R 1 (1 / rate + td)) by lra. cbn [bind].
  rewrite Hhalf, (range_nil 0 0) by lia. cbn [Z.ltb Z.compare mapM bind].
  destruct (Rltb (100 * td) tb); [rewrite pdiv_R by lra|]; cbn [bind];
    rewrite (pdiv_R (1 / 2) tb) by lra; cbn [bind length Z.of_nat];
    now rewrite pdiv_R_zero.
Qed.

Lemma pds_model_zhang_R_negative (N limit_k : Z) (rate td tb : R) :
  (N < 0)%Z -> (0 < rate)%R -> (0 < td)%R ->
  pds_model_zhang N rate td tb limit_k = Err ValueError.
Proof.
  intros HN Hrate Htd.
  assert (Htau : (0 < 1 / rate)%R) by (apply Rdiv_lt_0_compat; lra).
  unfold pds_model_zhang, r_det, _inner_loop_pds_zhang. rsimp.
  rewrite (pdiv_R 1 rate) by lra. cbn [bind].
  rewrite (pdiv_R 1 (1 / rate + td)) by lra. cbn [bind].
  destruct (Z.ltb_spec (N / 2) 0) as [_ | Hpos]; [reflexivity|].
  assert (N / 2 < 0)%Z by (apply Z.div_lt_upper_bound; lia). lia.
Qed.

(** *** What the arithmetic rejects, and what it lets through *)

(** With a dead time of [0] every lag divides by it. *)
Lemma B_raw_R_td_zero (k : Z) (r0 tb tau : R) :
  B_raw k r0 0%R tb tau = Err ZeroDivisionError.
Proof.
  unfold B_raw, A_single_k, A0.
  destruct (Z.eqb_spec k 0) as [-> | Hk]; cbn [Z.eqb]; now rewrite pdiv_R_zero.
Qed.

Lemma pds_model_zhang_R_td_zero (N limit_k : Z) (rate tb : R) :
  (2 <= N)%Z -> (0 < rate)%R ->
  pds_model_zhang N rate 0%R tb limit_k = Err ZeroDivisionError.
Proof.
  intros HN Hrate.
  assert (Htau : (0 < 1 / rate)%R) by (apply Rdiv_lt_0_compat; lra).
  assert (Hhalf : (1 <= N / 2)%Z) by (apply Z.div_le_lower_bound; lia).
  unfold pds_model_zhang, r_det. rsimp.
  rewrite (pdiv_R 1 rate) by lra. cbn [bind].
  rewrite (pdiv_R 1 (1 / rate + 0)) by lra. cbn [bind].
  unfold _inner_loop_pds_zhang.
  destruct (Z.ltb_spec (N / 2) 0) as [|_]; [lia|].
  rewrite (range_cons 0 (N / 2)) by lia. cbn [mapM]. unfold pds_bin.
  destruct (Z.le_gt_cases (Z.min N limit_k) 1) as [Hone | Hmore].
  - rewrite range_nil by lia. cbn [accumulate bind].
    unfold safe_B_single_k, default_limit_k. cbn [Z.ltb Z.compare].
    now rewrite B_raw_R_td_zero.
  - rewrite (range_cons 1) by lia. cbn [accumulate]. unfold pds_term at 1. rsimp.
    rewrite pdiv_R by (apply not_0_IZR; lia). cbn [bind].
    unfold safe_B_single_k at 1.
    destruct (Z.ltb_spec limit_k 1); [lia|].
    now rewrite B_raw_R_td_zero.
Qed.

(** With a bin time of [0] every block term is outside its support, [A] is
    [0] and the quotient by [r0 * tb] divides by zero. *)
Lemma B_raw_R_tb_zero (k : Z) (r0 td tau : R) :
  (0 <= k)%Z -> (0 < td)%R ->
  B_raw k r0 td 0%R tau = Err ZeroDivisionError.
Proof.
  intros Hk Htd.
  assert (HA : exists a, A_single_k k r0 td 0%R tau = Ok a).
  { unfold A_single_k. destruct (Z.eqb_spec k 0) as [-> | Hk0].
    - unfold A0. rewrite pdiv_R by lra. cbn [bind]. rsimp.
      rewrite int_max1_R. cbn [bind].
      replace (Int_part (Rmax 1 (0 / td + 1))) with 1%Z.
      + rewrite range_nil by lia. cbn [accumulate bind]. eauto.
      + apply Int_part_spec. replace (0 / td + 1)%R with 1%R by (field; lra).
        rewrite Rmax_left by lra. lra.
    - rewrite pdiv_R by lra. cbn [bind]. rsimp. rewrite int_max1_R. cbn [bind].
      rewrite accumulate_R_zero; [cbn [bind]; eauto|].
      intros n Hn. apply range_In in Hn.
      assert (Hn1 : (1 <= IZR n)%R) by (apply IZR_le; lia).
      unfold A_term.
      rewrite !h_R_outside by nra. cbn [bind]. rsimp. f_equal. ring. }
  destruct HA as [a Ha]. unfold B_raw.
  destruct (Z.eqb_spec k 0) as [-> | Hk0]; rewrite Ha; cbn [bind];
    rewrite !ppow_R; cbn [bind]; rsimp;
    replace (r0 * 0)%R with 0%R by ring; apply pdiv_R_zero.
Qed.

Lemma pds_model_zhang_R_tb_zero (N limit_k : Z) (rate td : R) :
  (2 <= N)%Z -> (0 < rate)%R -> (0 < td)%R ->
  pds_model_zhang N rate td 0%R limit_k = Err ZeroDivisionError.
Proof.
  intros HN Hrate Htd.
  assert (Htau : (0 < 1 / rate)%R) by (apply Rdiv_lt_0_compat; lra).
  assert (Hhalf : (1 <= N / 2)%Z) by (apply Z.div_le_lower_bound; lia).
  unfold pds_model_zhang, r_det. rsimp.
  rewrite (pdiv_R 1 rate) by lra. cbn [bind].
  rewrite (pdiv_R 1 (1 / rate + td)) by lra. cbn [bind].
  unfold _inner_loop_pds_zhang.
  destruct (Z.ltb_spec (N / 2) 0) as [|_]; [lia|].
  rewrite (range_cons 0 (N / 2)) by lia. cbn [mapM]. unfold pds_bin.
  destruct (Z.le_gt_cases (Z.min N limit_k) 1) as [Hone | Hmore].
  - rewrite range_nil by lia. cbn [accumulate bind].
    unfold safe_B_single_k, default_limit_k. cbn [Z.ltb Z.compare].
    rewrite B_raw_R_tb_zero by (lia || lra). reflexivity.
  - rewrite (range_cons 1) by lia. cbn [accumulate]. unfold pds_term at 1. rsimp.
    rewrite pdiv_R by (apply not_0_IZR; lia). cbn [bind].
    unfold safe_B_single_k at 1.
    destruct (Z.ltb_spec limit_k 1); [lia|].
    rewrite B_raw_R_tb_zero by (lia || lra). reflexivity.
Qed.

(** After the inner loop has returned, nothing is asked of the signs. *)
Lemma pds_model_zhang_R_tail_signs (N limit_k : Z) (rate td tb : R) (P : list R) :
  (2 <= N)%Z -> rate <> 0%R -> (1 / rate + td)%R <> 0%R ->
  td <> 0%R -> tb <> 0%R ->
  _inner_loop_pds_zhang N (1 / rate)%R (1 / (1 / rate + td))%R td tb limit_k = Ok P ->
  pds_model_zhang N rate td tb limit_k = Ok (freqs_spec (N / 2) tb, P)
  /\ length P = Z.to_nat (N / 2).
Proof.
  intros HN Hrate Hsum Htd Htb HP.
  assert (Hhalf : (1 <= N / 2)%Z) by (apply Z.div_le_lower_bound; lia).
  assert (Hlen : length P = Z.to_nat (N / 2)).
  { unfold _inner_loop_pds_zhang in HP.
    destruct (N / 2 <? 0)%Z; [discriminate|].
    apply mapM_length in HP. now rewrite range_length, Z.sub_0_r in HP. }
  split; [|exact Hlen].
  unfold pds_model_zhang, r_det. rsimp.
  rewrite (pdiv_R 1 rate) by assumption. cbn [bind].
  rewrite (pdiv_R 1 (1 / rate + td)) by assumption. cbn [bind].
  rewrite HP. cbn [bind].
  assert (Hwarn : exists w,
            (if Rltb (100 * td) tb then pdiv tb td else Ok 0%R) = Ok w).
  { destruct (Rltb (100 * td) tb); [rewrite pdiv_R by assumption|]; eauto. }
  destruct Hwarn as [w ->]. cbn [bind].
  rewrite (pdiv_R (1 / 2) tb) by assumption. cbn [bind].
  rewrite Hlen, Z2Nat.id by lia.
  rewrite pdiv_R by (apply not_0_IZR; lia). cbn [bind].
  rewrite arange_R; [| | lia].
  - cbn [bind]. unfold freqs_spec. do 2 f_equal.
    apply map_ext. intros i. lra.
  - unfold Rdiv. apply Rmult_integral_contrapositive. split; [lra|].
    now apply Rinv_neq_0_compat.
Qed.

(** The call returns as soon as [A] returns on every lag it sums. *)
Lemma pds_model_zhang_R_returns_of_A (N limit_k : Z) (rate td tb : R) :
  (2 <= N)%Z -> rate <> 0%R -> (1 / rate + td)%R <> 0%R ->
  td <> 0%R -> tb <> 0%R ->
  (forall k, (0 <= k < Z.max 1 (Z.min N limit_k))%Z ->
     exists a,
       A_single_k k (1 / (1 / rate + td))%R td tb (1 / rate)%R = Ok a) ->
  exists freqs P,
    pds_model_zhang N rate td tb limit_k = Ok (freqs, P)
    /\ length P = Z.to_nat (N / 2).
Proof.
  intros HN Hrate Hsum Htd Htb HA.
  set (r0 := (1 / (1 / rate + td))%R) in *. set (tau := (1 / rate)%R) in *.
  assert (Hr0 : r0 <> 0%R).
  { unfold r0, Rdiv. rewrite Rmult_1_l. now apply Rinv_neq_0_compat. }
  assert (Hnz : (r0 * tb)%R <> 0%R)
    by (apply Rmult_integral_contrapositive; split; assumption).
  assert (HB : forall k lim, (0 <= k < Z.max 1 (Z.min N limit_k))%Z ->
            exists b, safe_B_single_k k r0 td tb tau lim = Ok b).
  { intros k lim Hk. unfold safe_B_single_k.
    destruct (lim <? k)%Z; [eauto|].
    destruct (HA k Hk) as [a Ha]. unfold B_raw.
    destruct (Z.eqb_spec k 0) as [-> | Hk0];
      rewrite Ha; cbn [bind]; rewrite !ppow_R; cbn [bind]; rsimp;
      rewrite pdiv_R by assumption; eauto. }
  assert (HP : exists P, _inner_loop_pds_zhang N tau r0 td tb limit_k = Ok P).
  { unfold _inner_loop_pds_zhang.
    destruct (Z.ltb_spec (N / 2) 0) as [Hneg | _];
      [pose proof (Z.div_pos N 2); lia|].
    apply mapM_all_ok. intros j _. unfold pds_bin.
    destruct (accumulate_ok fadd (pds_term N tau r0 td tb limit_k j)
                (range 1 (Z.min N limit_k)) (of_Z 0)) as [s ->].
    - intros k Hk. apply range_In in Hk. unfold pds_term. rsimp.
      rewrite pdiv_R by (apply not_0_IZR; lia). cbn [bind].
      destruct (HB k limit_k) as [b ->]; [lia|]. cbn [bind]. eauto.
    - cbn [bind]. destruct (HB 0%Z default_limit_k) as [b ->]; [lia|].
      cbn [bind]. eauto. }
  destruct HP as [P HP]. exists (freqs_spec (N / 2) tb), P.
  now apply pds_model_zhang_R_tail_signs.
Qed.

(** [A] returns [0] or [r0 * tb] when every block term it sums is outside
    the support of [h]. *)
Lemma A_single_k_R_no_support (k : Z) (r0 td tb tau : R) :
  (0 <= k)%Z -> td <> 0%R ->
  (forall j n, (0 <= j <= k + 1)%Z -> (1 <= n)%Z ->
     (IZR j * tb - IZR n * td < 0)%R) ->
  exists a, A_single_k k r0 td tb tau = Ok a.
Proof.
  intros Hk Htd Hout. unfold A_single_k.
  destruct (Z.eqb_spec k 0) as [-> | Hk0].
  - unfold A0. rewrite pdiv_R by assumption. cbn [bind]. rsimp.
    rewrite int_max1_R. cbn [bind].
    rewrite accumulate_R_zero; [cbn [bind]; eauto|].
    intros n Hn. apply range_In in Hn. apply h_R_outside. apply Hout; lia.
  - rewrite pdiv_R by assumption. cbn [bind]. rsimp.
    rewrite int_max1_R. cbn [bind].
    rewrite accumulate_R_zero; [cbn [bind]; eauto|].
    intros n Hn. apply range_In in Hn. unfold A_term.
    rewrite !h_R_outside by (apply Hout; lia).
    cbn [bind]. rsimp. f_equal. ring.
Qed.

(** A negative rate is let through when every lag summed ends within the
    dead time: [tau = 1 / rate] is then never used. *)
Lemma pds_model_zhang_R_negative_rate (N limit_k : Z) (rate td tb : R) :
  (2 <= N)%Z -> (rate < 0)%R -> (1 / rate + td)%R <> 0%R ->
  (0 < tb < td)%R -> (IZR limit_k * tb < td)%R ->
  exists freqs P,
    pds_model_zhang N rate td tb limit_k = Ok (freqs, P)
    /\ length P = Z.to_nat (N / 2).
Proof.
  intros HN Hrate Hsum Htb Hlim.
  apply pds_model_zhang_R_returns_of_A; try assumption; try lra.
  intros k Hk. apply A_single_k_R_no_support; [lia | lra |].
  intros j n Hj Hn.
  assert (Hn1 : (1 <= IZR n)%R) by (apply IZR_le; lia).
  assert (Hj0 : (0 <= IZR j)%R) by (apply IZR_le; lia).
  destruct (Z.le_gt_cases j 1) as [Hj1 | Hj1].
  - assert (IZR j <= 1)%R by (apply IZR_le; lia). nra.
  - assert (IZR j <= IZR limit_k)%R by (apply IZR_le; lia). nra.
Qed.

(** A negative bin time is let through: every block term is outside the
    support. *)
Lemma pds_model_zhang_R_negative_tb (N limit_k : Z) (rate td tb : R) :
  (2 <= N)%Z -> (0 < rate)%R -> (0 < td)%R -> (tb < 0)%R ->
  exists freqs P,
    pds_model_zhang N rate td tb limit_k = Ok (freqs, P)
    /\ length P = Z.to_nat (N / 2).
Proof.
  intros HN Hrate Htd Htb.
  assert (Htau : (0 < 1 / rate)%R) by (apply Rdiv_lt_0_compat; lra).
  apply pds_model_zhang_R_returns_of_A; try assumption; try lra.
  intros k Hk. apply A_single_k_R_no_support; [lia | lra |].
  intros j n Hj Hn.
  assert (Hn1 : (1 <= IZR n)%R) by (apply IZR_le; lia).
  assert (Hj0 : (0 <= IZR j)%R) by (apply IZR_le; lia).
  nra.
Qed.

(** A negative dead time is let through: the loops of [A] then stop at
    [n = 2]. *)
Lemma pds_model_zhang_R_negative_td (N limit_k : Z) (rate td tb : R) :
  (2 <= N)%Z -> (0 < rate)%R -> (td < 0)%R -> (0 < tb)%R ->
  (1 / rate + td)%R <> 0%R ->
  exists freqs P,
    pds_model_zhang N rate td tb limit_k = Ok (freqs, P)
    /\ length P = Z.to_nat (N / 2).
Proof.
  intros HN Hrate Htd Htb Hsum.
  assert (Htau : (0 < 1 / rate)%R) by (apply Rdiv_lt_0_compat; lra).
  apply pds_model_zhang_R_returns_of_A; try assumption; try lra.
  intros k Hk.
  assert (Hk0 : (0 <= IZR k)%R) by (apply IZR_le; lia).
  assert (Hq : forall c, (0 <= c)%R -> (c * tb / td <= 0)%R).
  { intros c Hc. unfold Rdiv.
    assert (/ td < 0)%R by now apply Rinv_lt_0_compat.
    assert (0 <= c * tb)%R by nra. nra. }
  unfold A_single_k. destruct (Z.eqb_spec k 0) as [-> | Hk1].
  - unfold A0. rewrite pdiv_R by lra. cbn [bind]. rsimp.
    rewrite int_max1_R. cbn [bind].
    replace (Int_part (Rmax 1 (tb / td + 1))) with 1%Z.
    + rewrite range_nil by lia. cbn [accumulate bind]. eauto.
    + apply Int_part_spec. specialize (Hq 1%R ltac:(lra)).
      rewrite Rmult_1_l in Hq. rewrite Rmax_left by lra. lra.
  - rewrite pdiv_R by lra. cbn [bind]. rsimp. rewrite int_max1_R. cbn [bind].
    replace (Int_part (Rmax 1 (IZR (k + 2) * tb / td))) with 1%Z.
    + destruct (accumulate_ok Rplus (A_term k td tb (1 / rate)%R)
                  (range 1 (1 * 3)) 0%R) as [t ->]; [|cbn [bind]; eauto].
      intros n Hn. apply range_In in Hn.
      apply A_term_R_ok; try lra. unfold MAX_FACTORIAL. lia.
    + apply Int_part_spec.
      assert (Hk2 : (0 <= IZR (k + 2))%R) by (apply IZR_le; lia).
      specialize (Hq _ Hk2). rewrite Rmax_left by lra. lra.
Qed.

(** ** The table bound on a valid input *)

(** When the support boundary [(k + 1) * tb = n * td] falls on an index
    [n > MAX_FACTORIAL] of the loop of [A_single_k], [Gn(0, n)] is called
    and the table access raises. *)
Lemma A_single_k_R_raises (k n : Z) (r0 td tb tau : R) :
  (1 <= k)%Z -> (0 < td)%R -> (0 < tb)%R -> (0 < tau)%R ->
  (MAX_FACTORIAL < n)%Z ->
  (n < Int_part (Rmax 1 (IZR (k + 2) * tb / td)) * 3)%Z ->
  (IZR (k + 1) * tb - IZR n * td = 0)%R ->
  A_single_k k r0 td tb tau = Err IndexError.
Proof.
  intros Hk Htd Htb Htau Hn Hin Hf. unfold A_single_k.
  destruct (Z.eqb_spec k 0); [lia|].
  rewrite pdiv_R by lra. cbn [bind]. rsimp. rewrite int_max1_R. cbn [bind].
  rewrite (accumulate_raises_only Rplus (A_term k td tb tau) _ 0%R n IndexError);
    [reflexivity | | |].
  - intros y e Hy He. apply A_term_R_err in He; auto; lra.
  - apply range_In. unfold MAX_FACTORIAL in Hn. lia.
  - unfold A_term. rewrite h_R_inside by lra. rewrite Hf.
    replace (0 / tau)%R with 0%R by (field; lra).
    now rewrite Gn_R_x0_out.
Qed.

(** In exact arithmetic the call of the specification raises: at lag
    [k = 1] the loop of [A_single_k] runs to [n = 899] and meets
    [2 * tb - 200 * td = 0]. *)
Lemma pds_model_zhang_R_spec_instance_raises :
  pds_model_zhang 1024 100%R (1 / 10000)%R (1 / 100)%R 60 = Err IndexError.
Proof.
  unfold pds_model_zhang, r_det. rsimp.
  rewrite (pdiv_R 1 100) by lra. cbn [bind].
  rewrite (pdiv_R 1 (1 / 100 + 1 / 10000)) by lra. cbn [bind].
  set (r0 := (1 / (1 / 100 + 1 / 10000))%R).
  assert (HA : A_single_k 1 r0 (1 / 10000)%R (1 / 100)%R (1 / 100)%R = Err IndexError).
  { apply (A_single_k_R_raises 1 200); try lra; try lia.
    - unfold MAX_FACTORIAL. lia.
    - assert (300 <= Int_part (Rmax 1 (IZR (1 + 2) * (1 / 100) / (1 / 10000))))%Z;
        [|lia].
      apply Int_part_le.
      eapply Rle_trans; [|apply Rmax_r]. cbn [Z.add Pos.add]. lra.
    - cbn [Z.add Pos.add]. lra. }
  unfold _inner_loop_pds_zhang.
  replace (1024 / 2)%Z with 512%Z by reflexivity.
  cbn [Z.ltb Z.compare]. rewrite (range_cons 0 512) by lia.
  cbn [mapM]. unfold pds_bin.
  replace (Z.min 1024 60) with 60%Z by reflexivity.
  rewrite (range_cons 1 60) by lia. cbn [accumulate].
  unfold pds_term at 1. rsimp. rewrite pdiv_R by lra. cbn [bind].
  unfold safe_B_single_k at 1. cbn [Z.ltb Z.compare Pos.compare Pos.compare_cont].
  unfold B_raw. cbn [Z.eqb]. rewrite HA. reflexivity.
Qed.

(** The same call on a spectrum of fewer than two samples divides by the
    length of an empty array. *)
Lemma pds_model_zhang_single_sample (rate td tb : R) :
  (0 < rate)%R -> (0 < td)%R -> (0 < tb)%R ->
  pds_model_zhang 1 rate td tb default_limit_k = Err ZeroDivisionError.
Proof. intros. apply pds_model_zhang_R_empty; auto. lia. Qed.

(** ** The frequency axis *)

(** When the call returns, its first component is [freqs_spec (N / 2) tb]
    ([pds_model_zhang_R_tail]): [N / 2] frequencies [i * df] that start at
    [0], increase strictly and stay below [maxf = 0.5 / tb]. *)
Lemma freqs_spec_axis (n i : Z) (tb : R) :
  (0 <= i < n)%Z -> (0 < tb)%R ->
  length (freqs_spec n tb) = Z.to_nat n
  /\ nth_error (freqs_spec n tb) 0 = Some 0%R
  /\ nth_error (freqs_spec n tb) (Z.to_nat i) = Some (IZR i * (0.5 / tb / IZR n))%R
  /\ (IZR i * (0.5 / tb / IZR n) < IZR (i + 1) * (0.5 / tb / IZR n))%R
  /\ (IZR i * (0.5 / tb / IZR n) < 0.5 / tb)%R.
Proof.
  intros Hi Htb.
  assert (Hn : (0 < IZR n)%R) by (apply IZR_lt; lia).
  assert (Hmaxf : (0 < 0.5 / tb)%R) by (apply Rdiv_lt_0_compat; lra).
  assert (Hdf : (0 < 0.5 / tb / IZR n)%R) by (apply Rdiv_lt_0_compat; lra).
  assert (Hnth : forall j, (0 <= j < n)%Z ->
            nth_error (freqs_spec n tb) (Z.to_nat j)
            = Some (IZR j * (0.5 / tb / IZR n))%R).
  { intros j Hj. unfold freqs_spec.
    rewrite nth_error_map, range_nth_error by lia.
    cbn [option_map]. now rewrite Z.add_0_l, Z2Nat.id by lia. }
  repeat split.
  - unfold freqs_spec. rewrite length_map, range_length. f_equal. lia.
  - change 0%nat with (Z.to_nat 0). rewrite Hnth by lia. f_equal. lra.
  - now apply Hnth.
  - rewrite plus_IZR. lra.
  - assert (Hin : (IZR i < IZR n)%R) by (apply IZR_lt; lia).
    replace (0.5 / tb)%R with (IZR n * (0.5 / tb / IZR n))%R at 2 by (field; lra).
    apply Rmult_lt_compat_r; assumption.
Qed.

(** ** Binary64 *)

Lemma bind_not_ok {A B : Type} (r : result A) (f : A -> result B) :
  is_ok r = false -> is_ok (bind r f) = false.
Proof. destruct r; [discriminate | reflexivity]. Qed.

Lemma not_ok_err {A : Type} (r : result A) :
  is_ok r = false -> exists e, r = Err e.
Proof. destruct r; [discriminate | eauto]. Qed.

Lemma mapM_raises {A B : Type} (f : A -> result B) (x : A) (xs : list A) :
  is_ok (f x) = false -> is_ok (mapM f (x :: xs)) = false.
Proof. intros H. cbn. now apply bind_not_ok. Qed.

Lemma range_forallb (P : Z -> bool) (a b : Z) :
  forallb P (range a b) = true -> forall z, (a <= z < b)%Z -> P z = true.
Proof.
  intros H z Hz. rewrite forallb_forall in H. apply H. now apply range_In.
Qed.

Lemma b64_eq (x y : float) : PrimFloat.Leibniz.eqb x y = true -> x = y.
Proof. apply FloatAxioms.Leibniz.eqb_spec. Qed.

Section Binary64.

(** Any C library whose [log10] returns [-inf] at [0], as IEEE 754 and C99
    require. *)
Variable L : Libm.
Hypothesis log10_zero : lm_log10 L 0%float = neg_infinity.

Local Abbreviation num64 := (b64_num L).

Lemma b64_Gn_break_x0 (m : Z) (v s : float) :
  @Gn_break float num64 0%float m v s = false.
Proof. reflexivity. Qed.

Lemma b64_direct_formula_x0 : @direct_formula float num64 0%float 100 = true.
Proof. unfold direct_formula. cbn. rewrite log10_zero. reflexivity. Qed.

(** At [x = 0.0] the loop of [Gn] never leaves early, so it raises as soon as
    index 100 is among those to come. *)
Lemma b64_Gn_loop_x0_raises (n : Z) (ms : list Z) (s : float) :
  In 100%Z ms -> is_ok (@Gn_loop float num64 0%float n ms s) = false.
Proof.
  revert s. induction ms as [|m ms IH]; intros s Hin; [destruct Hin|].
  cbn [Gn_loop].
  destruct (@e_m_x_x_over_factorial float num64 0%float m) as [v|e] eqn:He;
    cbn [bind]; [|reflexivity].
  rewrite b64_Gn_break_x0. destruct Hin as [-> | Hin]; [|now apply IH].
  pose proof (@direct_formula_out float num64 0%float 100) as Hout.
  rewrite He in Hout. discriminate Hout.
  - unfold MAX_FACTORIAL. lia.
  - apply b64_direct_formula_x0.
Qed.

(** In binary64 too, [2 * 0.01 - 200 * 0.0001] is exactly [0.0]. *)
Lemma b64_h_boundary_raises :
  is_ok (@h float num64 2 200 0.0001%float 0.01%float (1 / 100)%float) = false.
Proof.
  unfold h.
  replace (@fltb float num64 _ _) with false by (vm_compute; reflexivity).
  replace (@pdiv float num64 (of_Z 200 .* (0.0001 .+ (1 / 100)))%num%float 0.01%float)
    with (Ok (200 * (0.0001 + 1 / 100) / 0.01)%float) by (vm_compute; reflexivity).
  cbn [bind].
  replace (@pdiv float num64 (1 / 100)%float 0.01%float)
    with (Ok ((1 / 100) / 0.01)%float) by (vm_compute; reflexivity).
  cbn [bind].
  replace (@pdiv float num64 _ (1 / 100)%float) with (@Ok float 0%float)
    by (vm_compute; reflexivity).
  cbn [bind]. apply bind_not_ok. unfold Gn.
  apply b64_Gn_loop_x0_raises. apply range_In. lia.
Qed.

Lemma b64_A_single_k_raises (r0 : float) :
  is_ok (@A_single_k float num64 1 r0 0.0001%float 0.01%float (1 / 100)%float)
  = false.
Proof.
  unfold A_single_k. cbn [Z.eqb].
  replace (@pdiv float num64 (of_Z (1 + 2) .* 0.01)%num%float 0.0001%float)
    with (Ok (3 * 0.01 / 0.0001)%float) by (vm_compute; reflexivity).
  cbn [bind].
  replace (@int_max1 float num64 (3 * 0.01 / 0.0001)%float) with (Ok 300%Z)
    by (vm_compute; reflexivity).
  cbn [bind]. apply bind_not_ok.
  destruct (not_ok_err
              (@A_term float num64 1 0.0001%float 0.01%float (1 / 100)%float 200))
    as [e He].
  { unfold A_term. apply bind_not_ok. apply b64_h_boundary_raises. }
  apply (accumulate_raises _ _ _ _ 200%Z e); [|exact He].
  apply range_In. lia.
Qed.

(** The call of the specification raises on binary64 as it does in exact
    arithmetic. *)
Lemma b64_pds_model_zhang_spec_instance_raises :
  is_ok (@pds_model_zhang float num64 1024 100%float 0.0001%float 0.01%float 60)
  = false.
Proof.
  unfold pds_model_zhang.
  replace (@pdiv float num64 (of_Z 1) 100%float) with (Ok (1 / 100)%float)
    by (vm_compute; reflexivity).
  cbn [bind].
  replace (@r_det float num64 0.0001%float 100%float)
    with (Ok (1 / (1 / 100 + 0.0001))%float) by (vm_compute; reflexivity).
  cbn [bind]. apply bind_not_ok.
  unfold _inner_loop_pds_zhang.
  replace (1024 / 2 <? 0)%Z with false by reflexivity.
  rewrite (range_cons 0 (1024 / 2)) by (vm_compute; reflexivity).
  apply mapM_raises. unfold pds_bin. apply bind_not_ok.
  replace (Z.min 1024 60) with 60%Z by reflexivity.
  rewrite (range_cons 1 60) by lia. cbn [accumulate]. apply bind_not_ok.
  unfold pds_term.
  replace (@pdiv float num64 (of_Z (1024 - 1)) (of_Z 1024))
    with (Ok (1023 / 1024)%float) by (vm_compute; reflexivity).
  cbn [bind]. apply bind_not_ok.
  unfold safe_B_single_k. cbn [Z.ltb Z.compare Pos.compare Pos.compare_cont].
  unfold B_raw. cbn [Z.eqb]. apply bind_not_ok.
  apply b64_A_single_k_raises.
Qed.

(** On binary64 [np.arange(0, maxf, maxf / n)] can hold [n + 1] entries: with
    [bin_time = 0.5] and 49 bins, [1.0 / (1.0 / 49)] rounds above 49. *)
Lemma b64_arange_extra_entry :
  exists freqs,
    @arange float num64 0%float (0.5 / 0.5)%float ((0.5 / 0.5) / 49)%float
    = Ok freqs
    /\ length freqs = 50%nat.
Proof. eexists. split; [vm_compute; reflexivity | reflexivity]. Qed.

(** The special values C99 fixes at zero: [exp(-0) = 1] and
    [pow(0, m) = 0] for [m >= 1]. *)
Hypothesis exp_zero : lm_exp L (- 0)%float = 1%float.
Hypothesis pow_zero : forall m, (1 <= m)%Z -> lm_pow L 0%float m = 0%float.

(** The float operations met at [x = 0.0], checked on every index below
    [MAX_FACTORIAL]. *)
Lemma b64_zero_terms (z : Z) :
  (1 <= z < 100)%Z ->
  PrimFloat.ltb (b64_of_Z z * neg_infinity) (b64_of_Z 50) = true
  /\ (1 * 0 * (b64_of_Z 1 / b64_of_Z (factorial z)) = 0)%float
  /\ (0 * b64_of_Z z = 0)%float
  /\ (b64_of_Z 0 + b64_of_Z 1 * b64_of_Z z = b64_of_Z z)%float
  /\ (b64_of_Z z + 0 = b64_of_Z z)%float.
Proof.
  intros Hz.
  pose proof (range_forallb
    (fun z => PrimFloat.ltb (b64_of_Z z * neg_infinity) (b64_of_Z 50)
              && PrimFloat.Leibniz.eqb
                   (1 * 0 * (b64_of_Z 1 / b64_of_Z (factorial z))) 0
              && PrimFloat.Leibniz.eqb (0 * b64_of_Z z) 0
              && PrimFloat.Leibniz.eqb
                   (b64_of_Z 0 + b64_of_Z 1 * b64_of_Z z) (b64_of_Z z)
              && PrimFloat.Leibniz.eqb (b64_of_Z z + 0) (b64_of_Z z))%float
    1 100) as H.
  specialize (H ltac:(vm_compute; reflexivity) z Hz).
  rewrite !andb_true_iff in H. destruct H as [[[[H1 H2] H3] H4] H5].
  repeat split; auto using b64_eq.
Qed.

Lemma b64_e_m_x_x_over_factorial_0_m (m : Z) :
  (1 <= m < MAX_FACTORIAL)%Z ->
  @e_m_x_x_over_factorial float num64 0%float m = Ok 0%float.
Proof.
  unfold MAX_FACTORIAL. intros Hm.
  destruct (b64_zero_terms m Hm) as (Hd & Hv & _).
  unfold e_m_x_x_over_factorial.
  destruct (Z.eqb_spec m 0); [lia|]. rewrite andb_false_r.
  unfold direct_formula. cbn [fltb fmul flog10 of_Z b64_num].
  rewrite log10_zero, Hd.
  unfold ppow. cbn [fpow is_inf b64_num]. rewrite pow_zero by lia.
  replace (is_infinity 0 && negb (is_infinity 0)) with false by reflexivity.
  cbn [bind].
  rewrite getitem_table by (unfold MAX_FACTORIAL; lia). cbn [bind].
  cbn [fexp fneg fmul fdiv of_Z b64_num].
  rewrite exp_zero. now rewrite Hv.
Qed.

Lemma b64_Gn_loop_x0_tail (n : Z) (ms : list Z) :
  (1 <= n < 100)%Z -> (forall m, In m ms -> (1 <= m < n)%Z) ->
  @Gn_loop float num64 0%float n ms (b64_of_Z n) = Ok (b64_of_Z n).
Proof.
  intros Hn. induction ms as [|m ms IH]; intros Hms; [reflexivity|].
  assert (Hm : (1 <= m < n)%Z) by (apply Hms; now left).
  cbn [Gn_loop].
  rewrite b64_e_m_x_x_over_factorial_0_m by (unfold MAX_FACTORIAL; lia).
  cbn [bind]. rewrite b64_Gn_break_x0.
  cbn [fadd fmul of_Z b64_num].
  destruct (b64_zero_terms (n - m)) as (_ & _ & H0 & _); [lia|].
  destruct (b64_zero_terms n Hn) as (_ & _ & _ & _ & Hs).
  rewrite H0, Hs. apply IH. intros m' Hm'. apply Hms. now right.
Qed.

(** On binary64 [Gn(0.0, n)] is the float [n], exactly. *)
Lemma b64_Gn_x0 (n : Z) :
  (0 <= n < MAX_FACTORIAL)%Z -> @Gn float num64 0%float n = Ok (b64_of_Z n).
Proof.
  unfold MAX_FACTORIAL. intros Hn. unfold Gn.
  destruct (Z.eq_dec n 0) as [-> | Hn0]; [reflexivity|].
  rewrite range_cons by lia. cbn [Gn_loop].
  replace (@e_m_x_x_over_factorial float num64 0%float 0)
    with (@Ok float (b64_of_Z 1)) by reflexivity.
  cbn [bind]. rewrite b64_Gn_break_x0.
  cbn [fadd fmul of_Z b64_num]. rewrite Z.sub_0_r.
  destruct (b64_zero_terms n) as (_ & _ & _ & Hs & _); [lia|].
  rewrite Hs. apply b64_Gn_loop_x0_tail; [lia|].
  intros m Hm. apply range_In in Hm. lia.
Qed.

End Binary64.

(** * The claims of the specification *)

(** C1 (amended): [pds_model_zhang] checks none of its preconditions; an
    invalid argument is rejected only where the arithmetic itself raises.
    In exact arithmetic and with the other arguments valid, [rate = 0],
    [td = 0] and [tb = 0] raise [ZeroDivisionError], a negative number of
    bins [M] raises [ValueError] and [N = 0] raises [ZeroDivisionError].
    Nothing else is rejected; the call returns a frequency axis and
    [N // 2] powers
    - for a negative rate [x], when every summed lag ends within the dead
      time (bin time [s] with [s < td] and [limit_k * s < td]) and
      [1 / x + td] is not [0];
    - for a negative dead time [x], unless [1 / rate + x = 0];
    - for a negative bin time [x];
    - and, when [(limit_k + 2) * tb < 34 * td], whatever [td] is against
      [1 / rate]. *)
Theorem pds_model_zhang_unchecked (N M limit_k : Z) (rate td tb x s : R) :
  (2 <= N)%Z -> (M < 0)%Z -> (0 <= limit_k)%Z ->
  (0 < rate)%R -> (0 < td)%R -> (0 < tb)%R ->
  ((IZR limit_k + 2) * tb < 34 * td)%R ->
  (x < 0)%R -> (1 / rate + x <> 0)%R -> (1 / x + td <> 0)%R ->
  (0 < s < td)%R -> (IZR limit_k * s < td)%R ->
  pds_model_zhang N 0%R td tb limit_k = Err ZeroDivisionError
  /\ pds_model_zhang N rate 0%R tb limit_k = Err ZeroDivisionError
  /\ pds_model_zhang N rate td 0%R limit_k = Err ZeroDivisionError
  /\ pds_model_zhang M rate td tb limit_k = Err ValueError
  /\ pds_model_zhang 0 rate td tb limit_k = Err ZeroDivisionError
  /\ (exists freqs P,
        pds_model_zhang N x td s limit_k = Ok (freqs, P)
        /\ length P = Z.to_nat (N / 2))
  /\ (exists freqs P,
        pds_model_zhang N rate x tb limit_k = Ok (freqs, P)
        /\ length P = Z.to_nat (N / 2))
  /\ (exists freqs P,
        pds_model_zhang N rate td x limit_k = Ok (freqs, P)
        /\ length P = Z.to_nat (N / 2))
  /\ (exists freqs P,
        pds_model_zhang N rate td tb limit_k = Ok (freqs, P)
        /\ length P = Z.to_nat (N / 2)).
Proof.
  intros HN HM Hlim Hrate Htd Htb Hbound Hx Hxtd Hxrate Hs Hshort.
  split; [apply pds_model_zhang_R_rate_zero|].
  split; [now apply pds_model_zhang_R_td_zero|].
  split; [now apply pds_model_zhang_R_tb_zero|].
  split; [now apply pds_model_zhang_R_negative|].
  split; [apply pds_model_zhang_R_empty; auto; lia|].
  split; [now apply pds_model_zhang_R_negative_rate|].
  split; [now apply pds_model_zhang_R_negative_td|].
  split; [now apply pds_model_zhang_R_negative_tb|].
  destruct (pds_model_zhang_R_returns N limit_k rate td tb) as [P HP]; auto.
  exists (freqs_spec (N / 2) tb), P. split; apply HP.
Qed.

Lemma pds_model_zhang_unchecked_witness :
  (1 / 2 <= 1)%R
  /\ pds_model_zhang 4 0%R 1%R (1 / 2)%R 3 = Err ZeroDivisionError
  /\ pds_model_zhang 4 2%R 0%R (1 / 2)%R 3 = Err ZeroDivisionError
  /\ pds_model_zhang 4 2%R 1%R 0%R 3 = Err ZeroDivisionError
  /\ pds_model_zhang (-2) 2%R 1%R (1 / 2)%R 3 = Err ValueError
  /\ pds_model_zhang 0 2%R 1%R (1 / 2)%R 3 = Err ZeroDivisionError
  /\ (exists freqs P,
        pds_model_zhang 4 (-2)%R 1%R (1 / 4)%R 3 = Ok (freqs, P)
        /\ length P = Z.to_nat (4 / 2))
  /\ (exists freqs P,
        pds_model_zhang 4 2%R (-2)%R (1 / 2)%R 3 = Ok (freqs, P)
        /\ length P = Z.to_nat (4 / 2))
  /\ (exists freqs P,
        pds_model_zhang 4 2%R 1%R (-2)%R 3 = Ok (freqs, P)
        /\ length P = Z.to_nat (4 / 2))
  /\ (exists freqs P,
        pds_model_zhang 4 2%R 1%R (1 / 2)%R 3 = Ok (freqs, P)
        /\ length P = Z.to_nat (4 / 2)).
Proof.
  split; [lra|].
  apply (pds_model_zhang_unchecked 4 (-2) 3 2%R 1%R (1 / 2)%R (-2)%R (1 / 4)%R);
    lra || lia.
Defined.

(** C1 as stated fails: the call of the specification with
    [dead_time = 0.2 >= 1 / rate = 0.1] returns two sequences of length 50. *)
Lemma pds_model_zhang_accepts_long_dead_time :
  (1 / 10 <= 2 / 10)%R
  /\ exists freqs P,
       pds_model_zhang 100 10%R (2 / 10)%R (1 / 100)%R 60 = Ok (freqs, P)
       /\ length freqs = 50%nat /\ length P = 50%nat.
Proof.
  split; [lra|].
  destruct (pds_model_zhang_R_returns 100 60 10%R (2 / 10)%R (1 / 100)%R)
    as [P HP]; try lra; try lia.
  exists (freqs_spec (100 / 2) (1 / 100)%R), P. exact HP.
Qed.




(** C3: for [k >= 1] and positive [r0], [td], [tb], [tau], [A(k)] equals
    [r0 * tb] times the sum over [n] from [1] to [N_k] inclusive of
    [h(k+1, n) - 2 * h(k, n) + h(k-1, n)], with
    [N_k = 3 * max(1, (k+2)*tb/td)] rounded down, [H j n] being the values
    [h(j, n, td, tb, tau)] returns.  The loop of the source runs to
    [3 * int(max(1, (k+2)*tb/td)) - 1]; the summands it leaves out are
    zero. *)
Theorem A_single_k_spec_correct (k : Z) (r0 td tb tau : R) (H : Z -> Z -> R) :
  (1 <= k)%Z -> (0 < r0)%R -> (0 < td)%R -> (0 < tb)%R -> (0 < tau)%R ->
  (forall j n, (k - 1 <= j <= k + 1)%Z -> (1 <= n <= Nk_spec k td tb)%Z ->
     h j n td tb tau = Ok (H j n)) ->
  A_single_k k r0 td tb tau = Ok (A_spec k r0 td tb H).
Proof.
  intros Hk Hr0 Htd Htb Htau HH. unfold A_single_k, A_spec.
  destruct (Z.eqb_spec k 0) as [Hk0 | Hk0]; [lia|].
  rewrite pdiv_R by lra. cbn [bind]. rsimp. rewrite int_max1_R. cbn [bind].
  unfold Nk_spec in *.
  replace (IZR k + 2)%R with (IZR (k + 2)) in * by (rewrite plus_IZR; lra).
  set (q := (IZR (k + 2) * tb / td)%R) in *.
  set (M := Int_part (Rmax 1 q)).
  set (Nk := Int_part (3 * Rmax 1 q)) in *.
  assert (HM : (1 <= M)%Z) by (apply Int_part_le, Rmax_l).
  assert (Hle : (M * 3 <= Nk)%Z).
  { apply Int_part_le. rewrite mult_IZR.
    pose proof (Int_part_bounds (Rmax 1 q)) as [Hlo _]. fold M in Hlo. lra. }
  set (g := fun n => (H (k + 1)%Z n - 2 * H k n + H (k - 1)%Z n)%R).
  assert (Hterm : forall n, (1 <= n <= Nk)%Z -> A_term k td tb tau n = Ok (g n)).
  { intros n Hn. unfold A_term.
    rewrite !HH by lia. reflexivity. }
  rewrite (accumulate_R_values _ g).
  - cbn [bind]. do 2 f_equal.
    rewrite (range_app 1 (M * 3) (Nk + 1)) by lia.
    rewrite Rsum_app; [reflexivity|].
    intros n Hn. apply range_In in Hn.
    assert (Hg : Ok (g n) = Ok 0%R :> result R).
    { rewrite <- Hterm by lia.
      apply A_term_R_outside; try assumption; try lia. fold q. fold M. lia. }
    now injection Hg.
  - intros n Hn. apply range_In in Hn. apply Hterm. lia.
Qed.

Lemma A_single_k_spec_correct_witness :
  A_single_k 1 1%R 1%R 2%R 1%R
  = Ok (A_spec 1 1%R 1%R 2%R (fun j n => returned (h j n 1%R 2%R 1%R))).
Proof.
  apply A_single_k_spec_correct; try lra; try lia.
  intros j n Hj Hn. apply h_R_returned; try lra.
  assert (HN : (Nk_spec 1 1 2 < 101)%Z).
  { unfold Nk_spec. apply Int_part_lt.
    replace ((1 + 2) * 2 / 1)%R with 6%R by field.
    rewrite Rmax_right by lra. lra. }
  unfold MAX_FACTORIAL. lia.
Defined.

(** C4: for positive [r0], [td], [tb], [tau], [A0] equals
    [r0 * tb * (1 + 2 * S)] with [S] the sum of [h(1, n, td, tb, tau)] over
    [n] from [1] to [N0] inclusive, [N0 = max(1, tb/td + 1)] rounded down,
    [H n] being the values [h(1, n, td, tb, tau)] returns.  The loop of the
    source stops one index earlier, at [N0 - 1]; the term of index [N0] lies
    outside the support of [h] and is [0]. *)
Theorem A0_spec_correct (r0 td tb tau : R) (H : Z -> R) :
  (0 < r0)%R -> (0 < td)%R -> (0 < tb)%R -> (0 < tau)%R ->
  (forall n, (1 <= n <= N0_spec td tb)%Z -> h 1 n td tb tau = Ok (H n)) ->
  A0 r0 td tb tau = Ok (A0_spec r0 td tb H).
Proof.
  intros Hr0 Htd Htb Htau HH. unfold A0, A0_spec.
  rewrite pdiv_R by lra. cbn [bind]. rsimp. rewrite int_max1_R. cbn [bind].
  unfold N0_spec in *.
  set (N0 := Int_part (Rmax 1 (tb / td + 1))) in *.
  assert (HN0 : (1 <= N0)%Z) by (apply Int_part_le, Rmax_l).
  rewrite (accumulate_R_values _ H).
  - cbn [bind]. do 4 f_equal.
    rewrite range_snoc by lia.
    rewrite Rsum_app; [reflexivity|].
    intros n [<- | []].
    assert (Hz : Ok (H N0) = Ok 0%R :> result R).
    { rewrite <- HH by lia. apply h_R_outside.
      pose proof (Int_part_bounds (Rmax 1 (tb / td + 1))) as [_ Hup].
      pose proof (Rmax_r 1 (tb / td + 1)) as Hmax. fold N0 in Hup.
      set (q := (tb / td)%R) in *.
      assert (Hq : tb = (q * td)%R) by (unfold q; field; lra).
      rewrite Hq. nra. }
    now injection Hz.
  - intros n Hn. apply range_In in Hn. apply HH. lia.
Qed.

Lemma A0_spec_correct_witness :
  A0 1%R 1%R 2%R 1%R
  = Ok (A0_spec 1%R 1%R 2%R (fun n => returned (h 1 n 1%R 2%R 1%R))).
Proof.
  apply A0_spec_correct; try lra.
  intros n Hn. apply h_R_returned; try lra.
  assert (HN : (N0_spec 1 2 < 101)%Z).
  { unfold N0_spec. apply Int_part_lt.
    replace (2 / 1 + 1)%R with 3%R by field.
    rewrite Rmax_right by lra. lra. }
  unfold MAX_FACTORIAL. lia.
Defined.

(** C5: for [k >= 0] and positive [r0], [td], [tb], [tau],
    [safe_B_single_k] returns [0.0] when [k > limit_k] (60 by default) and
    otherwise [B_raw(k) = c_k * (A(k) - r0² tb²) / (r0 tb)], with [c_0 = 2]
    and [c_k = 4] for [k >= 1]. *)
Theorem safe_B_single_k_spec_correct (k limit_k : Z) (r0 td tb tau : R) :
  (0 <= k)%Z -> (0 < r0)%R -> (0 < td)%R -> (0 < tb)%R -> (0 < tau)%R ->
  default_limit_k = 60%Z
  /\ safe_B_single_k k r0 td tb tau limit_k
     = (if (limit_k <? k)%Z then Ok 0%R else B_raw_spec k r0 td tb tau)
  /\ B_raw k r0 td tb tau = B_raw_spec k r0 td tb tau.
Proof.
  intros Hk Hr0 Htd Htb Htau.
  assert (Hraw : B_raw k r0 td tb tau = B_raw_spec k r0 td tb tau).
  { assert (Hnz : (r0 * tb)%R <> 0%R) by nra.
    unfold B_raw, B_raw_spec, c_spec.
    destruct (Z.eqb_spec k 0) as [-> | Hk0];
      (destruct (A_single_k _ r0 td tb tau) as [a|e]; [|reflexivity]);
      cbn [bind]; rewrite !ppow_R; cbn [bind]; rsimp;
      rewrite pdiv_R by assumption; f_equal; simpl; field; lra. }
  split; [reflexivity|]. split; [|exact Hraw].
  unfold safe_B_single_k. rsimp.
  destruct (limit_k <? k)%Z; [reflexivity | exact Hraw].
Qed.

Lemma safe_B_single_k_spec_correct_witness :
  default_limit_k = 60%Z
  /\ safe_B_single_k 61 1%R 1%R 2%R 1%R 60
     = (if (60 <? 61)%Z then Ok 0%R else B_raw_spec 61 1%R 1%R 2%R 1%R)
  /\ B_raw 61 1%R 1%R 2%R 1%R = B_raw_spec 61 1%R 1%R 2%R 1%R.
Proof. apply safe_B_single_k_spec_correct; lra || lia. Defined.

(** C6: for every frequency bin [j] in [[0, N/2)], the power returned is
    [P[j] = safe_B(0) + Σ_{k=1}^{min(N, limit_k)-1}
    (N-k)/N * safe_B(k) * cos(2π j k / N)], the values [B k] of [safe_B]
    being those at [r0 = r_det(td, rate)] and [tau = 1/rate].  The source
    calls [safe_B(0)] with the default [limit_k] and the other lags with the
    [limit_k] passed; for [limit_k >= 0] the two agree at lag [0]. *)
Theorem pds_bins_spec_correct (N limit_k j : Z) (rate td tb : R) (B : Z -> R) :
  (2 <= N)%Z -> (0 <= limit_k)%Z -> (0 <= j < N / 2)%Z ->
  (0 < rate)%R -> (0 < td)%R -> (0 < tb)%R ->
  safe_B_single_k 0 (1 / (1 / rate + td))%R td tb (1 / rate)%R default_limit_k
    = Ok (B 0%Z) ->
  (forall k, (1 <= k < Z.min N limit_k)%Z ->
     safe_B_single_k k (1 / (1 / rate + td))%R td tb (1 / rate)%R limit_k
       = Ok (B k)) ->
  r_det td rate = Ok (1 / (1 / rate + td))%R
  /\ safe_B_single_k 0 (1 / (1 / rate + td))%R td tb (1 / rate)%R limit_k
     = Ok (B 0%Z)
  /\ pds_model_zhang N rate td tb limit_k
     = Ok (freqs_spec (N / 2) tb, map (P_spec N limit_k B) (range 0 (N / 2)))
  /\ nth_error (map (P_spec N limit_k B) (range 0 (N / 2))) (Z.to_nat j)
     = Some (P_spec N limit_k B j).
Proof.
  intros HN Hlim Hj Hrate Htd Htb HB0 HB.
  assert (Htau : (0 < 1 / rate)%R) by (apply Rdiv_lt_0_compat; lra).
  repeat split.
  - unfold r_det. rsimp. rewrite (pdiv_R 1 rate) by lra. cbn [bind].
    now rewrite pdiv_R by lra.
  - rewrite <- HB0. unfold safe_B_single_k, default_limit_k.
    destruct (Z.ltb_spec limit_k 0); [lia | reflexivity].
  - apply pds_model_zhang_R_tail; auto.
    apply inner_loop_R_values; auto. lia.
  - rewrite nth_error_map, range_nth_error by lia.
    cbn [option_map]. now rewrite Z.add_0_l, Z2Nat.id by lia.
Qed.

Lemma pds_bins_spec_correct_witness :
  exists B : Z -> R,
    r_det 2%R 1%R = Ok (1 / (1 / 1 + 2))%R
    /\ safe_B_single_k 0 (1 / (1 / 1 + 2))%R 2%R 1%R (1 / 1)%R 2 = Ok (B 0%Z)
    /\ pds_model_zhang 4 1%R 2%R 1%R 2
       = Ok (freqs_spec (4 / 2) 1%R, map (P_spec 4 2 B) (range 0 (4 / 2)))
    /\ nth_error (map (P_spec 4 2 B) (range 0 (4 / 2))) (Z.to_nat 1)
       = Some (P_spec 4 2 B 1).
Proof.
  destruct (safe_B_single_k_R_ok 0 default_limit_k (1 / (1 / 1 + 2))%R 2%R 1%R (1 / 1)%R)
    as [b0 Hb0]; try lra; try lia.
  destruct (safe_B_single_k_R_ok 1 2 (1 / (1 / 1 + 2))%R 2%R 1%R (1 / 1)%R)
    as [b1 Hb1]; try lra; try lia.
  exists (fun k => if (k =? 0)%Z then b0 else b1).
  apply (pds_bins_spec_correct 4 2 1 1%R 2%R 1%R
           (fun k => if (k =? 0)%Z then b0 else b1)); try lra; try lia.
  - change (4 / 2)%Z with 2%Z. lia.
  - exact Hb0.
  - intros k Hk. assert (k = 1%Z) as -> by lia. exact Hb1.
Defined.

(** C7 (failing input): the call of the specification,
    [N = 1024], [rate = 100.0], [dead_time = 1e-4], [bin_time = 1e-2],
    raises [IndexError] instead of returning two arrays of length 512, in
    exact arithmetic and on binary64 (for a C library with
    [log10(0) = -inf]): at lag [k = 1] the loop of [A_single_k] runs to
    [n = 899] and meets [2 * tb - 200 * td = 0], where [Gn(0, 200)] reads
    the 100-entry table at index 100. *)
Theorem pds_model_zhang_spec_instance_raises (L : Libm) :
  lm_log10 L 0%float = neg_infinity ->
  pds_model_zhang 1024 100%R (1 / 10000)%R (1 / 100)%R 60 = Err IndexError
  /\ is_ok (@pds_model_zhang float (b64_num L)
              1024 100%float 0.0001%float 0.01%float 60) = false.
Proof.
  intros Hlog. split.
  - apply pds_model_zhang_R_spec_instance_raises.
  - now apply b64_pds_model_zhang_spec_instance_raises.
Qed.

Lemma pds_model_zhang_spec_instance_raises_witness :
  pds_model_zhang 1024 100%R (1 / 10000)%R (1 / 100)%R 60 = Err IndexError
  /\ is_ok (@pds_model_zhang float (b64_num libm_at_zero)
              1024 100%float 0.0001%float 0.01%float 60) = false.
Proof. apply pds_model_zhang_spec_instance_raises. reflexivity. Defined.

(** C8: [e_m_x_x_over_factorial(0, 0)] is [1.0] exactly (on the reals and on
    binary64, whatever the C library), and for every real [x >= 0],
    [e_m_x_x_over_factorial(x, 0)] equals [exp(-x)]. *)
Theorem e_m_x_x_over_factorial_m0 (x : R) :
  (0 <= x)%R ->
  e_m_x_x_over_factorial 0%R 0 = Ok 1%R
  /\ e_m_x_x_over_factorial x 0 = Ok (exp (- x))
  /\ (forall L : Libm,
        @e_m_x_x_over_factorial float (b64_num L) 0%float 0 = Ok 1%float).
Proof.
  intros _. split; [apply e_m_x_x_over_factorial_0_0|].
  split; [apply e_m_x_x_over_factorial_x_0|].
  intros L. reflexivity.
Qed.

Lemma e_m_x_x_over_factorial_m0_witness :
  e_m_x_x_over_factorial 0%R 0 = Ok 1%R
  /\ e_m_x_x_over_factorial 2%R 0 = Ok (exp (- 2))
  /\ (forall L : Libm,
        @e_m_x_x_over_factorial float (b64_num L) 0%float 0 = Ok 1%float).
Proof. apply e_m_x_x_over_factorial_m0; lra. Defined.

(** C9: for [rate > 0] and [0 < td < 1/rate],
    [r_in(td, r_det(td, rate))] is [rate], in exact arithmetic. *)
Theorem r_in_r_det_roundtrip (rate td : R) :
  (0 < rate)%R -> (0 < td)%R -> (td < 1 / rate)%R ->
  (d <- r_det td rate ;; r_in td d) = Ok rate.
Proof.
  intros Hrate Htd _.
  assert (Htau : (0 < 1 / rate)%R) by (apply Rdiv_lt_0_compat; lra).
  assert (Hd : (0 < 1 / (1 / rate + td))%R) by (apply Rdiv_lt_0_compat; lra).
  unfold r_det, r_in. rsimp.
  rewrite (pdiv_R 1 rate) by lra. cbn [bind].
  rewrite (pdiv_R 1 (1 / rate + td)) by lra. cbn [bind].
  rewrite (pdiv_R 1 (1 / (1 / rate + td))) by lra. cbn [bind].
  assert (Hback : (1 / (1 / (1 / rate + td)) - td = 1 / rate)%R)
    by (field; repeat split; nra).
  rewrite Hback. rewrite pdiv_R by lra. f_equal. field. lra.
Qed.

Lemma r_in_r_det_roundtrip_witness :
  (d <- r_det (1 / 4)%R 2%R ;; r_in (1 / 4)%R d) = Ok 2%R.
Proof. apply r_in_r_det_roundtrip; lra. Defined.

(** C10: for [0 <= n < MAX_FACTORIAL], [Gn(0, n)] returns the float [n],
    in exact arithmetic and exactly on binary64 (for a C library with the
    standard values at zero): at [x = 0] the early exit never triggers, the
    term [m = 0] is [1.0 * n] by the special case of
    [e_m_x_x_over_factorial], and every term [m >= 1] is [0.0]; so [h] on
    the boundary of its support ([factor = 0]) is [k - n * td / tb]. *)
Theorem Gn_at_zero (L : Libm) (n m k : Z) (td tb tau : R) :
  lm_log10 L 0%float = neg_infinity ->
  lm_exp L (- 0)%float = 1%float ->
  (forall i, (1 <= i)%Z -> lm_pow L 0%float i = 0%float) ->
  (0 <= n < MAX_FACTORIAL)%Z -> (1 <= m < MAX_FACTORIAL)%Z ->
  (0 < td)%R -> (0 < tb)%R -> (0 < tau)%R ->
  (IZR k * tb - IZR n * td = 0)%R ->
  Gn 0%R n = Ok (IZR n)
  /\ @Gn float (b64_num L) 0%float n = Ok (b64_of_Z n)
  /\ (forall i v s, Gn_break 0%R i v s = false)
  /\ e_m_x_x_over_factorial 0%R 0 = Ok 1%R
  /\ e_m_x_x_over_factorial 0%R m = Ok 0%R
  /\ @e_m_x_x_over_factorial float (b64_num L) 0%float m = Ok 0%float
  /\ h k n td tb tau = Ok (IZR k - IZR n * td / tb)%R.
Proof.
  intros Hlog Hexp Hpow Hn Hm Htd Htb Htau Hf.
  assert (HG : Gn 0%R n = Ok (IZR n)) by (apply Gn_R_x0; lia).
  repeat split.
  - exact HG.
  - now apply b64_Gn_x0.
  - apply Gn_break_R_x0.
  - apply e_m_x_x_over_factorial_0_0.
  - now apply e_m_x_x_over_factorial_0_m.
  - now apply b64_e_m_x_x_over_factorial_0_m.
  - rewrite h_R_inside by lra. rewrite Hf.
    replace (0 / tau)%R with 0%R by (field; lra).
    rewrite HG. cbn [bind]. f_equal. field. lra.
Qed.

Lemma Gn_at_zero_witness :
  Gn 0%R 4 = Ok (IZR 4)
  /\ @Gn float (b64_num libm_at_zero) 0%float 4 = Ok (b64_of_Z 4)
  /\ (forall i v s, Gn_break 0%R i v s = false)
  /\ e_m_x_x_over_factorial 0%R 0 = Ok 1%R
  /\ e_m_x_x_over_factorial 0%R 3 = Ok 0%R
  /\ @e_m_x_x_over_factorial float (b64_num libm_at_zero) 0%float 3 = Ok 0%float
  /\ h 2 4 1%R 2%R 1%R = Ok (IZR 2 - IZR 4 * 1 / 2)%R.
Proof.
  apply (Gn_at_zero libm_at_zero 4 3 2 1%R 2%R 1%R);
    try reflexivity; try (unfold MAX_FACTORIAL; lia); try lra.
  intros i Hi. cbn. destruct (Z.eqb_spec i 0); [lia | reflexivity].
Defined.

(** * Further properties of the code *)

(** ** Rate conversions *)

(** X1: for a positive incident rate and a positive dead time, [r_det]
    returns a detected rate that is positive, below the incident rate and
    below the saturation rate [1 / td]. *)
Theorem r_det_bounds (rate td : R) :
  (0 < rate)%R -> (0 < td)%R ->
  r_det td rate = Ok (1 / (1 / rate + td))%R
  /\ (0 < 1 / (1 / rate + td) < rate)%R
  /\ (1 / (1 / rate + td) < 1 / td)%R.
Proof.
  intros Hrate Htd.
  assert (Htau : (0 < 1 / rate)%R) by (apply Rdiv_lt_0_compat; lra).
  split; [|split; [split|]].
  - unfold r_det. rsimp. rewrite (pdiv_R 1 rate) by lra. cbn [bind].
    now rewrite pdiv_R by lra.
  - apply Rdiv_lt_0_compat; lra.
  - apply Rmult_lt_reg_r with (1 / rate + td)%R; [lra|].
    replace (1 / (1 / rate + td) * (1 / rate + td))%R with 1%R by (field; split; nra).
    replace (rate * (1 / rate + td))%R with (1 + rate * td)%R by (field; lra).
    nra.
  - apply Rmult_lt_reg_r with (1 / rate + td)%R; [lra|].
    replace (1 / (1 / rate + td) * (1 / rate + td))%R with 1%R by (field; split; nra).
    replace (1 / td * (1 / rate + td))%R with (1 + 1 / rate / td)%R by (field; lra).
    assert (0 < 1 / rate / td)%R by (apply Rdiv_lt_0_compat; lra). lra.
Qed.

Lemma r_det_bounds_witness :
  r_det 1%R 2%R = Ok (1 / (1 / 2 + 1))%R
  /\ (0 < 1 / (1 / 2 + 1) < 2)%R
  /\ (1 / (1 / 2 + 1) < 1 / 1)%R.
Proof. apply r_det_bounds; lra. Defined.

(** X2: below saturation ([r_0 * td < 1]) [r_in] returns an incident rate
    above the detected one, and [r_det] brings it back:
    [r_det(td, r_in(td, r_0)) = r_0]. *)
Theorem r_det_r_in_roundtrip (r_0 td : R) :
  (0 < r_0)%R -> (0 < td)%R -> (r_0 * td < 1)%R ->
  r_in td r_0 = Ok (1 / (1 / r_0 - td))%R
  /\ (r_0 < 1 / (1 / r_0 - td))%R
  /\ (r_i <- r_in td r_0 ;; r_det td r_i) = Ok r_0.
Proof.
  intros Hr Htd Hsat.
  assert (Htau : (0 < 1 / r_0 - td)%R).
  { apply Rmult_lt_reg_r with r_0; [lra|].
    replace ((1 / r_0 - td) * r_0)%R with (1 - r_0 * td)%R by (field; lra). lra. }
  assert (Hin : r_in td r_0 = Ok (1 / (1 / r_0 - td))%R).
  { unfold r_in. rsimp. rewrite (pdiv_R 1 r_0) by lra. cbn [bind].
    now rewrite pdiv_R by lra. }
  assert (Hri : (0 < 1 / (1 / r_0 - td))%R) by (apply Rdiv_lt_0_compat; lra).
  split; [exact Hin|]. split.
  - apply Rmult_lt_reg_r with (1 / r_0 - td)%R; [lra|].
    replace (1 / (1 / r_0 - td) * (1 / r_0 - td))%R with 1%R by (field; split; lra).
    replace (r_0 * (1 / r_0 - td))%R with (1 - r_0 * td)%R by (field; lra).
    nra.
  - rewrite Hin. cbn [bind]. unfold r_det. rsimp.
    rewrite (pdiv_R 1 (1 / (1 / r_0 - td))) by lra. cbn [bind].
    assert (Hback : (1 / (1 / (1 / r_0 - td)) + td = 1 / r_0)%R)
      by (field; split; lra).
    rewrite Hback. assert (0 < 1 / r_0)%R by (apply Rdiv_lt_0_compat; lra).
    rewrite pdiv_R by lra. f_equal. field. lra.
Qed.

Lemma r_det_r_in_roundtrip_witness :
  r_in (1 / 4)%R 2%R = Ok (1 / (1 / 2 - 1 / 4))%R
  /\ (2 < 1 / (1 / 2 - 1 / 4))%R
  /\ (r_i <- r_in (1 / 4)%R 2%R ;; r_det (1 / 4)%R r_i) = Ok 2%R.
Proof. apply r_det_r_in_roundtrip; lra. Defined.

(** X3: [r_in] does not check that the detected rate is below saturation:
    at [r_0 = 1 / td] it raises [ZeroDivisionError] (as it does at
    [r_0 = 0]), and above saturation it returns a negative rate. *)
Theorem r_in_saturation (r_0 td : R) :
  (0 < td)%R -> (1 < r_0 * td)%R ->
  r_in td (1 / td)%R = Err ZeroDivisionError
  /\ r_in td 0%R = Err ZeroDivisionError
  /\ r_in td r_0 = Ok (1 / (1 / r_0 - td))%R
  /\ (1 / (1 / r_0 - td) < 0)%R.
Proof.
  intros Htd Hsat.
  assert (Hr : (0 < r_0)%R) by nra.
  assert (Htau : (1 / r_0 - td < 0)%R).
  { apply Rmult_lt_reg_r with r_0; [lra|].
    replace ((1 / r_0 - td) * r_0)%R with (1 - r_0 * td)%R by (field; lra). lra. }
  repeat split.
  - unfold r_in. rsimp.
    assert (0 < 1 / td)%R by (apply Rdiv_lt_0_compat; lra).
    rewrite (pdiv_R 1 (1 / td)) by lra. cbn [bind].
    replace (1 / (1 / td) - td)%R with 0%R by (field; lra).
    apply pdiv_R_zero.
  - unfold r_in. rsimp. now rewrite pdiv_R_zero.
  - unfold r_in. rsimp. rewrite (pdiv_R 1 r_0) by lra. cbn [bind].
    now rewrite pdiv_R by lra.
  - unfold Rdiv. rewrite Rmult_1_l. now apply Rinv_lt_0_compat.
Qed.

Lemma r_in_saturation_witness :
  r_in 1%R (1 / 1)%R = Err ZeroDivisionError
  /\ r_in 1%R 0%R = Err ZeroDivisionError
  /\ r_in 1%R 2%R = Ok (1 / (1 / 2 - 1))%R
  /\ (1 / (1 / 2 - 1) < 0)%R.
Proof. apply r_in_saturation; lra. Defined.

(** ** The Stirling factor and the factorial ratio *)

Lemma sterling_factor_R (m : Z) :
  sterling_factor m
  = (1 + 1 / 12 / IZR m + 1 / 288 / IZR m ^ 2
     + -139 / 51840 / IZR m ^ 3 + -571 / 2488320 / IZR m ^ 4)%R.
Proof.
  unfold sterling_factor, sterling_parameter, STERLING_PARAMETERS. rsimp.
  cbn [nth].
  change 2%Z with (Z.of_nat 2). change 3%Z with (Z.of_nat 3).
  change 4%Z with (Z.of_nat 4). now rewrite <- !pow_IZR.
Qed.

Lemma sterling_factor_R_bounds (m : Z) :
  (1 <= m)%Z ->
  (1 < sterling_factor m < 1 + 1 / 12 / IZR m + 1 / 288 / IZR m ^ 2)%R.
Proof.
  intros Hm. rewrite sterling_factor_R.
  assert (Hu : (1 <= IZR m)%R) by (apply IZR_le; lia).
  set (u := IZR m) in *.
  set (v := (/ u)%R).
  assert (Hv : (0 < v <= 1)%R).
  { unfold v. split; [apply Rinv_0_lt_compat; lra|].
    rewrite <- Rinv_1. apply Rinv_le_contravar; lra. }
  replace (1 / 12 / u)%R with (v / 12)%R by (unfold v; field; lra).
  replace (1 / 288 / u ^ 2)%R with (v ^ 2 / 288)%R by (unfold v; field; lra).
  replace (-139 / 51840 / u ^ 3)%R with (- (139 / 51840) * v ^ 3)%R
    by (unfold v; field; lra).
  replace (-571 / 2488320 / u ^ 4)%R with (- (571 / 2488320) * v ^ 4)%R
    by (unfold v; field; lra).
  assert (H2 : (0 < v ^ 2)%R) by nra.
  assert (H3 : (0 < v ^ 3 <= v ^ 2)%R) by (simpl; nra).
  assert (H4 : (0 < v ^ 4 <= v ^ 2)%R) by (simpl; nra).
  split; lra.
Qed.

(** X4: for every [m >= 1] the Stirling correction lies strictly between
    [1] and [1 + 1/(12 m) + 1/(288 m²)]; in particular it is not zero, so
    the quotient by [sterling_factor(m)] in the asymptotic branch is
    defined. *)
Theorem sterling_factor_bounds (m : Z) :
  (1 <= m)%Z ->
  (1 < sterling_factor m < 1 + 1 / 12 / IZR m + 1 / 288 / IZR m ^ 2)%R.
Proof. apply sterling_factor_R_bounds. Qed.

Lemma sterling_factor_bounds_witness :
  (1 < sterling_factor 3 < 1 + 1 / 12 / IZR 3 + 1 / 288 / IZR 3 ^ 2)%R.
Proof. apply sterling_factor_bounds. lia. Defined.

Lemma factorial_succ (m : Z) :
  (0 <= m)%Z -> factorial (m + 1) = (factorial m * (m + 1))%Z.
Proof.
  intros Hm. unfold factorial.
  rewrite (range_snoc 1 (m + 1)) by lia.
  now rewrite fold_left_app.
Qed.

(** The table is built from the factorial of the library. *)
Lemma factorial_fact (n : nat) : factorial (Z.of_nat n) = Z.of_nat (fact n).
Proof.
  induction n as [|n IH]; [reflexivity|].
  replace (Z.of_nat (S n)) with (Z.of_nat n + 1)%Z by lia.
  rewrite factorial_succ, IH by lia.
  cbn [fact]. lia.
Qed.

Lemma factorial_pos (m : Z) : (0 <= m)%Z -> (0 < factorial m)%Z.
Proof.
  intros Hm. rewrite <- (Z2Nat.id m Hm), factorial_fact.
  pose proof (lt_O_fact (Z.to_nat m)). lia.
Qed.

(** The asymptotic branch is only entered with [m >= 1] and [x > 1]. *)
Lemma direct_formula_R_false (x : R) (m : Z) :
  (0 <= x)%R -> (0 <= m)%Z -> direct_formula x m = false ->
  (1 <= m)%Z /\ (1 < x)%R.
Proof.
  intros Hx Hm Hd. unfold direct_formula in Hd. rsimp.
  apply Rltb_false in Hd.
  assert (Hln10 : (0 < ln 10)%R).
  { rewrite <- ln_1. apply ln_increasing; lra. }
  assert (Hm0 : (0 <= IZR m)%R) by (apply IZR_le; lia).
  destruct (Rle_dec x 1) as [Hle | Hgt].
  - exfalso.
    assert (Hlnx : (ln x <= 0)%R).
    { destruct (Req_dec x 0) as [-> | Hx0]; [rewrite ln_0; lra|].
      destruct (Req_dec x 1) as [-> | Hx1]; [rewrite ln_1; lra|].
      rewrite <- ln_1. left. apply ln_increasing; lra. }
    assert (Hq : (ln x / ln 10 <= 0)%R).
    { assert (0 < / ln 10)%R by now apply Rinv_0_lt_compat.
      unfold Rdiv. nra. }
    nra.
  - split; [|lra].
    destruct (Z.eq_dec m 0) as [-> | Hm1]; [|lia].
    exfalso. lra.
Qed.

(** X5: in exact arithmetic, for [x >= 0] and [m >= 0],
    [e_m_x_x_over_factorial] fails exactly when it takes the direct formula
    at an index [m >= MAX_FACTORIAL], and then with [IndexError]; the
    asymptotic branch never raises. *)
Theorem e_m_x_x_over_factorial_raises_iff (x : R) (m : Z) :
  (0 <= x)%R -> (0 <= m)%Z ->
  is_ok (e_m_x_x_over_factorial x m)
  = negb (direct_formula x m && (MAX_FACTORIAL <=? m)%Z)
  /\ (is_ok (e_m_x_x_over_factorial x m) = true
      \/ e_m_x_x_over_factorial x m = Err IndexError).
Proof.
  intros Hx Hm. split.
  - destruct (direct_formula x m) eqn:Hd; cbn [andb negb].
    + destruct (Z.leb_spec MAX_FACTORIAL m) as [Hout | Hin]; cbn [negb].
      * now apply direct_formula_out.
      * destruct (e_m_x_x_over_factorial_R_ok x m) as [v ->]; [lia | reflexivity].
    + destruct (direct_formula_R_false x m Hx Hm Hd) as [Hm1 _].
      unfold e_m_x_x_over_factorial. rewrite Hd.
      destruct (Z.eqb_spec m 0); [lia|]. rewrite andb_false_r.
      rsimp. rewrite pdiv_R by (apply not_0_IZR; lia). reflexivity.
  - destruct (e_m_x_x_over_factorial x m) as [v|e] eqn:He; [now left|].
    right. f_equal. now apply e_m_x_x_over_factorial_R_err in He.
Qed.

Lemma e_m_x_x_over_factorial_raises_iff_witness :
  is_ok (e_m_x_x_over_factorial 0%R 100)
  = negb (direct_formula 0%R 100 && (MAX_FACTORIAL <=? 100)%Z)
  /\ (is_ok (e_m_x_x_over_factorial 0%R 100) = true
      \/ e_m_x_x_over_factorial 0%R 100 = Err IndexError).
Proof. apply e_m_x_x_over_factorial_raises_iff; lra || lia. Defined.

Lemma e_m_x_x_over_factorial_R_direct (x : R) (m : Z) :
  (0 < x)%R -> (0 <= m < MAX_FACTORIAL)%Z -> direct_formula x m = true ->
  e_m_x_x_over_factorial x m
  = Ok (exp (- x) * x ^ Z.to_nat m / INR (fact (Z.to_nat m)))%R
  /\ (0 < exp (- x) * x ^ Z.to_nat m / INR (fact (Z.to_nat m)))%R.
Proof.
  intros Hx Hm Hd.
  assert (Hfact : (0 < INR (fact (Z.to_nat m)))%R) by (apply lt_0_INR, lt_O_fact).
  split.
  - unfold e_m_x_x_over_factorial. rsimp.
    rewrite (proj2 (Reqb_false x 0)) by lra. cbn [andb].
    rewrite Hd, ppow_R. cbn [bind]. rewrite getitem_table by assumption.
    cbn [bind]. rsimp. f_equal.
    rewrite <- (Z2Nat.id m) at 1 2 by lia.
    rewrite <- pow_powerRZ, factorial_fact, <- INR_IZR_INZ.
    field. lra.
  - apply Rdiv_lt_0_compat; [|assumption].
    apply Rmult_lt_0_compat; [apply exp_pos | now apply pow_lt].
Qed.

(** X6: for [x > 0] and [0 <= m < MAX_FACTORIAL], the direct formula
    returns the Poisson probability [exp(-x) * x^m / m!], which is
    positive: the table holds the inverses of the factorials. *)
Theorem e_m_x_x_over_factorial_direct (x : R) (m : Z) :
  (0 < x)%R -> (0 <= m < MAX_FACTORIAL)%Z -> direct_formula x m = true ->
  e_m_x_x_over_factorial x m
  = Ok (exp (- x) * x ^ Z.to_nat m / INR (fact (Z.to_nat m)))%R
  /\ (0 < exp (- x) * x ^ Z.to_nat m / INR (fact (Z.to_nat m)))%R.
Proof. apply e_m_x_x_over_factorial_R_direct. Qed.

Lemma e_m_x_x_over_factorial_direct_witness :
  e_m_x_x_over_factorial 1%R 3
  = Ok (exp (- 1) * 1 ^ Z.to_nat 3 / INR (fact (Z.to_nat 3)))%R
  /\ (0 < exp (- 1) * 1 ^ Z.to_nat 3 / INR (fact (Z.to_nat 3)))%R.
Proof.
  apply e_m_x_x_over_factorial_direct; [lra | unfold MAX_FACTORIAL; lia |].
  unfold direct_formula. rsimp. apply Rltb_true. rewrite ln_1. lra.
Defined.

Lemma e_m_x_x_over_factorial_R_pos (x : R) (m : Z) (v : R) :
  (0 < x)%R -> (0 <= m)%Z -> e_m_x_x_over_factorial x m = Ok v -> (0 < v)%R.
Proof.
  intros Hx Hm Hv.
  destruct (direct_formula x m) eqn:Hd.
  - destruct (Z.ltb_spec m MAX_FACTORIAL) as [Hin | Hout].
    + destruct (e_m_x_x_over_factorial_R_direct x m) as [He Hpos]; auto.
      rewrite He in Hv. now injection Hv as <-.
    + pose proof (direct_formula_out x m Hout Hd) as Hno.
      rewrite Hv in Hno. discriminate.
  - destruct (direct_formula_R_false x m (Rlt_le _ _ Hx) Hm Hd) as [Hm1 Hx1].
    unfold e_m_x_x_over_factorial in Hv. rewrite Hd in Hv.
    destruct (Z.eqb_spec m 0); [lia|]. rewrite andb_false_r in Hv.
    assert (Hmr : (0 < IZR m)%R) by (apply IZR_lt; lia).
    rsimp. rewrite pdiv_R in Hv by lra. cbn [bind] in Hv.
    injection Hv as <-.
    pose proof (sterling_factor_R_bounds m Hm1) as [Hsf _].
    apply Rdiv_lt_0_compat; [|eapply Rlt_trans; [|exact Hsf]; lra].
    apply Rmult_lt_0_compat.
    + apply Rdiv_lt_0_compat; [lra|]. apply sqrt_lt_R0.
      pose proof PI_RGT_0. nra.
    + apply powerRZ_lt. apply Rdiv_lt_0_compat; [|assumption].
      apply Rmult_lt_0_compat; [assumption | apply exp_pos].
Qed.

(** X7: for [x > 0] and [m >= 0], every value [e_m_x_x_over_factorial]
    returns is positive, in the direct and in the asymptotic branch. *)
Theorem e_m_x_x_over_factorial_positive (x v : R) (m : Z) :
  (0 < x)%R -> (0 <= m)%Z -> e_m_x_x_over_factorial x m = Ok v -> (0 < v)%R.
Proof. apply e_m_x_x_over_factorial_R_pos. Qed.

Lemma e_m_x_x_over_factorial_positive_witness : (0 < exp (- 2))%R.
Proof.
  apply (e_m_x_x_over_factorial_positive 2 (exp (- 2)) 0); [lra | lia |].
  apply e_m_x_x_over_factorial_x_0.
Defined.

(** ** The truncated series and the block term *)

Lemma e_m_x_x_over_factorial_R_nonneg (x : R) (m : Z) (v : R) :
  (0 <= x)%R -> (0 <= m)%Z -> e_m_x_x_over_factorial x m = Ok v -> (0 <= v)%R.
Proof.
  intros Hx Hm Hv. destruct (Req_dec x 0) as [-> | Hx0].
  - destruct (Z.eq_dec m 0) as [-> | Hm0].
    + rewrite e_m_x_x_over_factorial_0_0 in Hv. injection Hv as <-. lra.
    + destruct (Z.ltb_spec m MAX_FACTORIAL) as [Hin | Hout].
      * rewrite e_m_x_x_over_factorial_0_m in Hv by lia. injection Hv as <-. lra.
      * rewrite e_m_x_x_over_factorial_0_out in Hv by lia. discriminate.
  - left. apply (e_m_x_x_over_factorial_R_pos x m); auto. lra.
Qed.

(** The running sum of [Gn] never decreases. *)
Lemma Gn_loop_R_lower (x : R) (n : Z) (ms : list Z) (s c g : R) :
  (0 <= x)%R -> (forall m, In m ms -> (0 <= m < n)%Z) -> (c <= s)%R ->
  Gn_loop x n ms s = Ok g -> (c <= g)%R.
Proof.
  intros Hx. revert s. induction ms as [|m ms IH]; intros s Hms Hc Hg.
  - cbn in Hg. injection Hg as <-. exact Hc.
  - cbn [Gn_loop] in Hg.
    assert (Hm : (0 <= m < n)%Z) by (apply Hms; now left).
    destruct (e_m_x_x_over_factorial x m) as [e|] eqn:He; [|discriminate].
    cbn [bind] in Hg.
    pose proof (e_m_x_x_over_factorial_R_nonneg x m e Hx (proj1 Hm) He) as He0.
    assert (Hnm : (0 < IZR (n - m))%R) by (apply IZR_lt; lia).
    assert (Hs' : (c <= s + e * IZR (n - m))%R) by (rsimp; nra).
    destruct (Gn_break _ _ _ _).
    + injection Hg as <-. exact Hs'.
    + apply (IH (s + e * IZR (n - m))%R); auto.
      intros m' Hm'. apply Hms. now right.
Qed.

(** X8: for [x >= 0] and [1 <= n <= MAX_FACTORIAL], [Gn] returns a sum that
    is at least its first term [n * exp(-x)], hence positive: the quotient
    [new_val / s] of the early-exit test never divides by zero. *)
Theorem Gn_lower_bound (x : R) (n : Z) :
  (0 <= x)%R -> (1 <= n <= MAX_FACTORIAL)%Z ->
  exists g, Gn x n = Ok g /\ (IZR n * exp (- x) <= g)%R /\ (0 < g)%R.
Proof.
  intros Hx Hn.
  destruct (Gn_R_ok x n) as [g Hg]; [lia|].
  exists g. split; [exact Hg|].
  assert (Hlow : (IZR n * exp (- x) <= g)%R).
  { unfold Gn in Hg. rewrite range_cons in Hg by lia. cbn [Gn_loop] in Hg.
    rewrite e_m_x_x_over_factorial_x_0 in Hg. cbn [bind] in Hg.
    rewrite Z.sub_0_r in Hg. rsimp.
    destruct (Gn_break _ _ _ _).
    - injection Hg as <-. lra.
    - apply (Gn_loop_R_lower x n (range (0 + 1) n)
               (0 + exp (- x) * IZR n)%R _ g Hx); [| lra | exact Hg].
      intros m Hm. apply range_In in Hm. lia. }
  split; [exact Hlow|].
  assert (0 < IZR n)%R by (apply IZR_lt; lia).
  pose proof (exp_pos (- x)). nra.
Qed.

Lemma Gn_lower_bound_witness :
  exists g, Gn 1%R 5 = Ok g /\ (IZR 5 * exp (- 1) <= g)%R /\ (0 < g)%R.
Proof. apply Gn_lower_bound; [lra | unfold MAX_FACTORIAL; lia]. Defined.

Lemma Gn_loop_R_no_break (x : R) (n : Z) (ms : list Z) (s : R) :
  (forall m, In m ms -> (IZR m <= 2 * x)%R) ->
  Gn_loop x n ms s
  = accumulate Rplus
      (fun m => e <- e_m_x_x_over_factorial x m ;; Ok (e * IZR (n - m))%R) ms s.
Proof.
  revert s. induction ms as [|m ms IH]; intros s Hms; [reflexivity|].
  cbn [Gn_loop accumulate].
  destruct (e_m_x_x_over_factorial x m) as [e|]; [|reflexivity].
  cbn [bind].
  assert (Hb : forall v t, Gn_break x m v t = false).
  { intros v t. unfold Gn_break. rsimp.
    rewrite (proj2 (Rltb_false (2 * x) (IZR m))) by (apply Hms; now left).
    now rewrite andb_false_r. }
  rewrite Hb. apply IH. intros m' Hm'. apply Hms. now right.
Qed.

(** X9: the early exit of [Gn] can only fire at an index [m > 2 x]; for
    [n <= 2 x + 1] the loop runs over every index and [Gn(x, n)] is the
    full sum of [e_m_x_x_over_factorial(x, m) * (n - m)], [0 <= m < n]. *)
Theorem Gn_no_truncation (x : R) (n : Z) :
  (0 <= x)%R -> (IZR n <= 2 * x + 1)%R ->
  Gn x n
  = accumulate Rplus
      (fun m => e <- e_m_x_x_over_factorial x m ;; Ok (e * IZR (n - m))%R)
      (range 0 n) 0%R.
Proof.
  intros Hx Hn. unfold Gn. apply Gn_loop_R_no_break.
  intros m Hm. apply range_In in Hm.
  assert (IZR m <= IZR n - 1)%R; [|lra].
  rewrite <- minus_IZR. apply IZR_le. lia.
Qed.

Lemma Gn_no_truncation_witness :
  Gn 2%R 5
  = accumulate Rplus
      (fun m => e <- e_m_x_x_over_factorial 2%R m ;; Ok (e * IZR (5 - m))%R)
      (range 0 5) 0%R.
Proof. apply Gn_no_truncation; lra. Defined.

Lemma Gn_R_one (x : R) : Gn x 1 = Ok (exp (- x)).
Proof.
  unfold Gn. rewrite range_cons, range_nil by lia. cbn [Gn_loop].
  rewrite e_m_x_x_over_factorial_x_0. cbn [bind]. rsimp.
  replace (0 + exp (- x) * IZR (1 - 0))%R with (exp (- x)).
  - now destruct (Gn_break _ _ _ _).
  - cbn [Z.sub Z.opp Z.add]. lra.
Qed.

(** X10: the first block term in closed form: for [k * tb >= td],
    [h(k, 1) = k - (td + tau)/tb + (tau/tb) * exp(-(k tb - td)/tau)]. *)
Theorem h_first_term (k : Z) (td tb tau : R) :
  (0 < td)%R -> (0 < tb)%R -> (0 < tau)%R -> (td <= IZR k * tb)%R ->
  h k 1 td tb tau
  = Ok (IZR k - (td + tau) / tb
        + tau / tb * exp (- ((IZR k * tb - td) / tau)))%R.
Proof.
  intros Htd Htb Htau Hk.
  rewrite h_R_inside by lra.
  replace (IZR k * tb - 1 * td)%R with (IZR k * tb - td)%R by lra.
  rewrite Gn_R_one. cbn [bind]. f_equal. field. lra.
Qed.

Lemma h_first_term_witness :
  h 2 1 1%R 1%R 1%R
  = Ok (IZR 2 - (1 + 1) / 1 + 1 / 1 * exp (- ((IZR 2 * 1 - 1) / 1)))%R.
Proof. apply h_first_term; lra. Defined.

(** ** Bins shorter than the dead time *)

Lemma A0_R_short_bin (r0 td tb tau : R) :
  (0 < tb < td)%R -> A0 r0 td tb tau = Ok (r0 * tb)%R.
Proof.
  intros Hb. unfold A0. rewrite pdiv_R by lra. cbn [bind]. rsimp.
  rewrite int_max1_R. cbn [bind].
  assert (Hq : (0 < tb / td < 1)%R).
  { split; [apply Rdiv_lt_0_compat; lra|].
    apply Rmult_lt_reg_r with td; [lra|].
    replace (tb / td * td)%R with tb by (field; lra). lra. }
  replace (Int_part (Rmax 1 (tb / td + 1))) with 1%Z.
  - rewrite range_nil by lia. cbn [accumulate bind]. f_equal. ring.
  - apply Int_part_spec. rewrite Rmax_right by lra. lra.
Qed.

Lemma B_raw_R (k : Z) (r0 td tb tau a : R) :
  (r0 * tb)%R <> 0%R -> A_single_k k r0 td tb tau = Ok a ->
  B_raw k r0 td tb tau
  = Ok ((if (k =? 0)%Z then 2 else 4) * (a - r0 ^ 2 * tb ^ 2) / (r0 * tb))%R.
Proof.
  intros Hnz Ha. unfold B_raw.
  destruct (Z.eqb_spec k 0) as [-> | Hk]; rewrite Ha; cbn [bind];
    rewrite !ppow_R; cbn [bind]; rsimp; rewrite pdiv_R by assumption;
    f_equal; simpl; field; intros H; apply Hnz; rewrite H; ring.
Qed.

Lemma B_raw_R_short_bin (r0 td tb tau : R) :
  (0 < r0)%R -> (0 < tb)%R -> (tb < td)%R ->
  A_single_k 0 r0 td tb tau = Ok (r0 * tb)%R
  /\ B_raw 0 r0 td tb tau = Ok (2 * (1 - r0 * tb))%R.
Proof.
  intros Hr0 Htb Hb.
  assert (HA : A_single_k 0 r0 td tb tau = Ok (r0 * tb)%R).
  { unfold A_single_k. cbn [Z.eqb]. apply A0_R_short_bin. lra. }
  split; [exact HA|].
  rewrite (B_raw_R 0 r0 td tb tau (r0 * tb)%R) by (auto; nra).
  cbn [Z.eqb]. f_equal. field. lra.
Qed.

(** X11: when the bin is shorter than the dead time ([tb < td]) a bin holds
    at most one count: [A0] is the mean [r0 * tb] and the lag-zero term is
    [B_raw(0) = 2 * (1 - r0 * tb)]. *)
Theorem B_raw_0_short_bin (r0 td tb tau : R) :
  (0 < r0)%R -> (0 < tb)%R -> (tb < td)%R ->
  A_single_k 0 r0 td tb tau = Ok (r0 * tb)%R
  /\ B_raw 0 r0 td tb tau = Ok (2 * (1 - r0 * tb))%R.
Proof. apply B_raw_R_short_bin. Qed.

Lemma B_raw_0_short_bin_witness :
  A_single_k 0 1%R 2%R 1%R 1%R = Ok (1 * 1)%R
  /\ B_raw 0 1%R 2%R 1%R 1%R = Ok (2 * (1 - 1 * 1))%R.
Proof. apply B_raw_0_short_bin; lra. Defined.

Lemma B_raw_R_within_dead_time (k : Z) (r0 td tb tau : R) :
  (1 <= k)%Z -> (0 < r0)%R -> (0 < tb)%R -> (IZR (k + 1) * tb < td)%R ->
  A_single_k k r0 td tb tau = Ok 0%R
  /\ B_raw k r0 td tb tau = Ok (- 4 * r0 * tb)%R.
Proof.
  intros Hk Hr0 Htb Hin.
  assert (Hk1 : (2 <= IZR (k + 1))%R) by (apply IZR_le; lia).
  assert (Htd : (0 < td)%R) by nra.
  assert (HA : A_single_k k r0 td tb tau = Ok 0%R).
  { unfold A_single_k. destruct (Z.eqb_spec k 0) as [Hk0 | Hk0]; [lia|].
    rewrite pdiv_R by lra. cbn [bind]. rewrite int_max1_R. cbn [bind].
    rewrite accumulate_R_zero.
    - cbn [bind]. rsimp. f_equal. ring.
    - intros n Hn. apply range_In in Hn.
      assert (Hn1 : (1 <= IZR n)%R) by (apply IZR_le; lia).
      rewrite plus_IZR in Hin, Hk1.
      unfold A_term.
      rewrite !h_R_outside; [cbn [bind]; rsimp; f_equal; ring | | |].
      + rewrite minus_IZR. nra.
      + nra.
      + rewrite plus_IZR. nra. }
  split; [exact HA|].
  rewrite (B_raw_R k r0 td tb tau 0%R) by (auto; nra).
  destruct (Z.eqb_spec k 0); [lia|]. f_equal. field. lra.
Qed.

(** X12: a lag [k >= 1] that ends within the dead time
    ([(k + 1) * tb < td]) has no pair of counts: [A_single_k(k)] is [0] and
    [B_raw(k) = -4 * r0 * tb]. *)
Theorem B_raw_within_dead_time (k : Z) (r0 td tb tau : R) :
  (1 <= k)%Z -> (0 < r0)%R -> (0 < tb)%R -> (IZR (k + 1) * tb < td)%R ->
  A_single_k k r0 td tb tau = Ok 0%R
  /\ B_raw k r0 td tb tau = Ok (- 4 * r0 * tb)%R.
Proof. apply B_raw_R_within_dead_time. Qed.

Lemma B_raw_within_dead_time_witness :
  A_single_k 1 1%R 3%R 1%R 1%R = Ok 0%R
  /\ B_raw 1 1%R 3%R 1%R 1%R = Ok (- 4 * 1 * 1)%R.
Proof. apply B_raw_within_dead_time; cbn [Z.add Pos.add]; lra || lia. Defined.

Lemma Rsum_nil (f : Z -> R) : Rsum f [] = 0%R.
Proof. reflexivity. Qed.

Lemma inner_loop_R_flat (N limit_k : Z) (rate td tb : R) :
  (2 <= N)%Z -> (limit_k <= 1)%Z ->
  (0 < rate)%R -> (0 < tb)%R -> (tb < td)%R ->
  _inner_loop_pds_zhang N (1 / rate)%R (1 / (1 / rate + td))%R td tb limit_k
  = Ok (repeat (2 * (1 - 1 / (1 / rate + td) * tb))%R (Z.to_nat (N / 2))).
Proof.
  intros HN Hlim Hrate Htb Hb.
  assert (Htau : (0 < 1 / rate)%R) by (apply Rdiv_lt_0_compat; lra).
  assert (Hr0 : (0 < 1 / (1 / rate + td))%R) by (apply Rdiv_lt_0_compat; lra).
  destruct (B_raw_R_short_bin (1 / (1 / rate + td))%R td tb (1 / rate)%R)
    as [_ HB]; auto.
  set (c := (2 * (1 - 1 / (1 / rate + td) * tb))%R) in *.
  assert (Hinner : _inner_loop_pds_zhang N (1 / rate)%R (1 / (1 / rate + td))%R
                     td tb limit_k
                   = Ok (map (P_spec N limit_k (fun _ => c)) (range 0 (N / 2)))).
  { apply inner_loop_R_values; [lia | |].
    - unfold safe_B_single_k, default_limit_k. cbn [Z.ltb Z.compare]. exact HB.
    - intros k Hk. lia. }
  assert (Hmap : map (P_spec N limit_k (fun _ => c)) (range 0 (N / 2))
                 = repeat c (Z.to_nat (N / 2))).
  { rewrite (map_ext _ (fun _ => c)).
    - now rewrite map_const, range_length, Z.sub_0_r.
    - intros j. unfold P_spec. rewrite range_nil by lia. rewrite Rsum_nil. lra. }
  now rewrite Hmap in Hinner.
Qed.

Lemma pds_model_zhang_R_flat (N limit_k : Z) (rate td tb : R) :
  (2 <= N)%Z -> (limit_k <= 1)%Z ->
  (0 < rate)%R -> (0 < tb)%R -> (tb < td)%R ->
  pds_model_zhang N rate td tb limit_k
  = Ok (freqs_spec (N / 2) tb,
        repeat (2 * (1 - 1 / (1 / rate + td) * tb))%R (Z.to_nat (N / 2))).
Proof.
  intros HN Hlim Hrate Htb Hb.
  pose proof (inner_loop_R_flat N limit_k rate td tb HN Hlim Hrate Htb Hb) as Hinner.
  apply pds_model_zhang_R_tail in Hinner; [|assumption | lra | lra | lra].
  apply Hinner.
Qed.

(** X13: with [limit_k <= 1] no lag beyond zero is summed and the spectrum
    is flat; when moreover [tb < td], the inner loop returns [N // 2] powers
    all equal to [2 * (1 - r0 * tb)] with [r0 = r_det(td, rate)], and
    [pds_model_zhang] returns them. *)
Theorem pds_model_zhang_flat (N limit_k : Z) (rate td tb : R) :
  (2 <= N)%Z -> (limit_k <= 1)%Z ->
  (0 < rate)%R -> (0 < tb)%R -> (tb < td)%R ->
  _inner_loop_pds_zhang N (1 / rate)%R (1 / (1 / rate + td))%R td tb limit_k
  = Ok (repeat (2 * (1 - 1 / (1 / rate + td) * tb))%R (Z.to_nat (N / 2)))
  /\ exists freqs,
       pds_model_zhang N rate td tb limit_k
       = Ok (freqs, repeat (2 * (1 - 1 / (1 / rate + td) * tb))%R
                      (Z.to_nat (N / 2))).
Proof.
  intros HN Hlim Hrate Htb Hb. split.
  - now apply inner_loop_R_flat.
  - eexists. now apply pds_model_zhang_R_flat.
Qed.

Lemma pds_model_zhang_flat_witness :
  _inner_loop_pds_zhang 6 (1 / 1)%R (1 / (1 / 1 + 2))%R 2%R 1%R 1
  = Ok (repeat (2 * (1 - 1 / (1 / 1 + 2) * 1))%R (Z.to_nat (6 / 2)))
  /\ exists freqs,
       pds_model_zhang 6 1%R 2%R 1%R 1
       = Ok (freqs, repeat (2 * (1 - 1 / (1 / 1 + 2) * 1))%R (Z.to_nat (6 / 2))).
Proof. apply pds_model_zhang_flat; lra || lia. Defined.

(** ** What a returning call returns *)

Lemma pds_model_zhang_bins {F : Type} (num : Num F)
    (N limit_k : Z) (rate td tb : F) (freqs P : list F) :
  feqb (of_Z 0) (of_Z 0) = true ->
  pds_model_zhang N rate td tb limit_k = Ok (freqs, P) ->
  (2 <= N)%Z /\ length P = Z.to_nat (N / 2).
Proof.
  intros Hzero Hcall. unfold pds_model_zhang in Hcall.
  destruct (pdiv (of_Z 1) rate) as [tau|]; [|discriminate]. cbn [bind] in Hcall.
  destruct (r_det td rate) as [r0|]; [|discriminate]. cbn [bind] in Hcall.
  destruct (_inner_loop_pds_zhang N tau r0 td tb limit_k) as [P'|] eqn:Hinner;
    [|discriminate].
  cbn [bind] in Hcall.
  destruct (if fltb _ tb then _ else _); [|discriminate]. cbn [bind] in Hcall.
  destruct (pdiv _ tb) as [maxf|]; [|discriminate]. cbn [bind] in Hcall.
  destruct (pdiv maxf _) as [df|] eqn:Hdf; [|discriminate]. cbn [bind] in Hcall.
  destruct (arange _ maxf df); [|discriminate]. cbn [bind] in Hcall.
  injection Hcall as _ <-.
  unfold _inner_loop_pds_zhang in Hinner.
  destruct (Z.ltb_spec (N / 2) 0) as [|Hhalf]; [discriminate|].
  apply mapM_length in Hinner. rewrite range_length, Z.sub_0_r in Hinner.
  split; [|exact Hinner].
  destruct (Z.eq_dec (N / 2) 0) as [H0 | H0].
  - rewrite Hinner, H0 in Hdf. unfold pdiv in Hdf. cbn [Z.to_nat Z.of_nat] in Hdf.
    rewrite Hzero in Hdf. discriminate.
  - destruct (Z.lt_ge_cases N 2) as [Hlt | Hge]; [|lia].
    assert (N / 2 < 1)%Z by (apply Z.div_lt_upper_bound; lia). lia.
Qed.

(** X14: whatever the arithmetic (exact or binary64, any C library), when
    [pds_model_zhang] returns [(freqs, P)] the number of samples is
    [N >= 2] and [P] holds [N // 2] powers: with [N <= 1] the call never
    returns. *)
Theorem pds_model_zhang_returns_bins {F : Type} (num : Num F)
    (N limit_k : Z) (rate td tb : F) (freqs P : list F) :
  feqb (of_Z 0) (of_Z 0) = true ->
  pds_model_zhang N rate td tb limit_k = Ok (freqs, P) ->
  (2 <= N)%Z /\ length P = Z.to_nat (N / 2).
Proof. apply pds_model_zhang_bins. Qed.

Lemma pds_model_zhang_returns_bins_witness :
  exists freqs P : list R,
    pds_model_zhang 6 1%R 2%R 1%R 1 = Ok (freqs, P)
    /\ (2 <= 6)%Z /\ length P = Z.to_nat (6 / 2).
Proof.
  exists (freqs_spec (6 / 2) 1%R),
         (repeat (2 * (1 - 1 / (1 / 1 + 2) * 1))%R (Z.to_nat (6 / 2))).
  assert (Hcall : pds_model_zhang 6 1%R 2%R 1%R 1
                  = Ok (freqs_spec (6 / 2) 1%R,
                        repeat (2 * (1 - 1 / (1 / 1 + 2) * 1))%R (Z.to_nat (6 / 2))))
    by (apply pds_model_zhang_R_flat; lra || lia).
  split; [exact Hcall|].
  apply (pds_model_zhang_returns_bins R_num 6 1 1%R 2%R 1%R
           (freqs_spec (6 / 2) 1%R)
           (repeat (2 * (1 - 1 / (1 / 1 + 2) * 1))%R (Z.to_nat (6 / 2))));
    [|exact Hcall].
  apply Reqb_true. reflexivity.
Defined.

Lemma b64_zero_eqb (L : Libm) :
  @feqb float (b64_num L) (@of_Z float (b64_num L) 0) (@of_Z float (b64_num L) 0)
  = true.
Proof. reflexivity. Qed.

(** ** The frequency axis on binary64 *)

Lemma b64_pds_model_zhang_extra_entry (L : Libm) (N limit_k : Z)
    (rate td : float) (freqs P : list float) :
  (N / 2 = 49)%Z ->
  @pds_model_zhang float (b64_num L) N rate td 0.5%float limit_k
  = Ok (freqs, P) ->
  length P = 49%nat /\ length freqs = 50%nat.
Proof.
  intros HN Hcall.
  destruct (pds_model_zhang_bins (b64_num L) N limit_k rate td 0.5%float freqs P)
    as [_ HlenP]; [apply b64_zero_eqb | exact Hcall |].
  rewrite HN in HlenP. split; [exact HlenP|].
  unfold pds_model_zhang in Hcall.
  destruct (pdiv (of_Z 1) rate) as [tau|]; [|discriminate]. cbn [bind] in Hcall.
  destruct (r_det td rate) as [r0|]; [|discriminate]. cbn [bind] in Hcall.
  destruct (_inner_loop_pds_zhang N tau r0 td 0.5%float limit_k) as [P'|];
    [|discriminate].
  cbn [bind] in Hcall.
  destruct (if fltb _ _ then _ else _); [|discriminate]. cbn [bind] in Hcall.
  replace (@pdiv float (b64_num L) (of_Z 1 ./ of_Z 2)%num 0.5%float)
    with (@Ok float 1%float) in Hcall by (vm_compute; reflexivity).
  cbn [bind] in Hcall.
  destruct (pdiv 1%float (of_Z (Z.of_nat (length P')))) as [df|] eqn:Hdf;
    [|discriminate].
  cbn [bind] in Hcall.
  destruct (arange (of_Z 0) 1%float df) as [fs|] eqn:Hfs; [|discriminate].
  cbn [bind] in Hcall. injection Hcall as <- <-.
  rewrite HlenP in Hdf.
  assert (Hdf' : df = (1 / 49)%float).
  { vm_compute in Hdf. now injection Hdf as <-. }
  subst df. vm_compute in Hfs. injection Hfs as <-. reflexivity.
Qed.

(** X15: on binary64 the frequency axis is not always as long as the array
    of powers.  [np.arange(0, maxf, df)] holds [ceil(maxf / df)] entries, and
    with [df = maxf / len(P)] rounded the quotient can exceed [len(P)]: for a
    bin time of [0.5] and 49 bins ([N = 98] or [99]), every call that
    returns, whatever the rate, the dead time, [limit_k] and the C library,
    returns 49 powers and 50 frequencies. *)
Theorem pds_model_zhang_axis_extra_entry (L : Libm) (N limit_k : Z)
    (rate td : float) (freqs P : list float) :
  (N / 2 = 49)%Z ->
  @pds_model_zhang float (b64_num L) N rate td 0.5%float limit_k
  = Ok (freqs, P) ->
  length P = 49%nat /\ length freqs = 50%nat.
Proof. apply b64_pds_model_zhang_extra_entry. Qed.

Lemma pds_model_zhang_axis_extra_entry_witness :
  exists freqs P : list float,
    @pds_model_zhang float (b64_num libm_at_zero) 98 1%float 1%float 0.5%float 0
    = Ok (freqs, P)
    /\ length P = 49%nat /\ length freqs = 50%nat.
Proof.
  assert (Hcall : exists freqs P,
            @pds_model_zhang float (b64_num libm_at_zero)
              98 1%float 1%float 0.5%float 0 = Ok (freqs, P))
    by (vm_compute; eauto).
  destruct Hcall as (freqs & P & Hcall). exists freqs, P.
  split; [exact Hcall|].
  apply (pds_model_zhang_axis_extra_entry libm_at_zero 98 0 1%float 1%float);
    [reflexivity | exact Hcall].
Defined.

(** ** Commensurate bin and dead times *)

Lemma accumulate_err_only {F : Type} (add : F -> F -> F) (f : Z -> result F)
    (xs : list Z) (s : F) (e e' : exn) :
  (forall y e'', In y xs -> f y = Err e'' -> e'' = e) ->
  accumulate add f xs s = Err e' -> e' = e.
Proof.
  revert s. induction xs as [|y xs IH]; intros s Honly; cbn; [discriminate|].
  destruct (f y) as [v|e''] eqn:Hy; cbn.
  - apply IH. intros z e3 Hz. apply Honly. now right.
  - intros [= <-]. apply (Honly y); [now left | assumption].
Qed.

Lemma A_single_k_R_err (k : Z) (r0 td tb tau : R) (e : exn) :
  td <> 0%R -> tb <> 0%R -> tau <> 0%R ->
  A_single_k k r0 td tb tau = Err e -> e = IndexError.
Proof.
  intros Htd Htb Htau. unfold A_single_k, A0.
  destruct (k =? 0)%Z; rewrite pdiv_R by assumption; cbn [bind]; rsimp;
    rewrite int_max1_R; cbn [bind].
  - destruct (accumulate _ _ _ _) as [s|e'] eqn:Hacc; cbn [bind]; [discriminate|].
    intros [= <-]. apply accumulate_err_only with (e := IndexError) in Hacc; auto.
    intros y e'' _ Hy. now apply h_R_err in Hy.
  - destruct (accumulate _ _ _ _) as [s|e'] eqn:Hacc; cbn [bind]; [discriminate|].
    intros [= <-]. apply accumulate_err_only with (e := IndexError) in Hacc; auto.
    intros y e'' _ Hy. now apply A_term_R_err in Hy.
Qed.

Lemma safe_B_single_k_R_err (k limit_k : Z) (r0 td tb tau : R) (e : exn) :
  td <> 0%R -> tb <> 0%R -> tau <> 0%R -> r0 <> 0%R ->
  safe_B_single_k k r0 td tb tau limit_k = Err e -> e = IndexError.
Proof.
  intros Htd Htb Htau Hr0. unfold safe_B_single_k, B_raw.
  assert (Hnz : (r0 * tb)%R <> 0%R)
    by (apply Rmult_integral_contrapositive; split; assumption).
  destruct (limit_k <? k)%Z; [discriminate|].
  destruct (k =? 0)%Z;
    (destruct (A_single_k _ r0 td tb tau) as [a|e'] eqn:Ha; cbn [bind];
     [rewrite !ppow_R; cbn [bind]; rsimp; rewrite pdiv_R by assumption; discriminate
     | intros [= <-]; now apply A_single_k_R_err in Ha]).
Qed.

Lemma pds_model_zhang_R_commensurate (N limit_k k q : Z) (rate td : R) :
  (0 < rate)%R -> (0 < td)%R -> (1 <= q)%Z ->
  (1 <= k < Z.min N limit_k)%Z -> (MAX_FACTORIAL < (k + 1) * q)%Z ->
  pds_model_zhang N rate td (IZR q * td)%R limit_k = Err IndexError.
Proof.
  intros Hrate Htd Hq Hk Hover.
  assert (Hqr : (1 <= IZR q)%R) by (apply IZR_le; lia).
  assert (Htb : (0 < IZR q * td)%R) by nra.
  assert (Htau : (0 < 1 / rate)%R) by (apply Rdiv_lt_0_compat; lra).
  assert (Hr0 : (0 < 1 / (1 / rate + td))%R) by (apply Rdiv_lt_0_compat; lra).
  remember (IZR q * td)%R as tb eqn:Etb.
  remember (1 / rate)%R as tau eqn:Etau.
  remember (1 / (tau + td))%R as r0 eqn:Er0.
  assert (HA : A_single_k k r0 td tb tau = Err IndexError).
  { apply (A_single_k_R_raises k ((k + 1) * q)); try lra; try lia.
    - replace (IZR (k + 2) * tb / td)%R with (IZR ((k + 2) * q)).
      + assert (1 <= IZR ((k + 2) * q))%R by (apply IZR_le; nia).
        rewrite Rmax_right by assumption. rewrite Int_part_IZR. nia.
      + rewrite Etb, mult_IZR. field. lra.
    - rewrite Etb, mult_IZR. ring. }
  assert (Hterm : forall j, pds_term N tau r0 td tb limit_k j k = Err IndexError).
  { intros j. unfold pds_term. rsimp.
    rewrite pdiv_R by (apply not_0_IZR; lia). cbn [bind].
    unfold safe_B_single_k. destruct (Z.ltb_spec limit_k k); [lia|].
    unfold B_raw. destruct (Z.eqb_spec k 0); [lia|]. now rewrite HA. }
  assert (Hbin : pds_bin N tau r0 td tb limit_k 0 = Err IndexError).
  { unfold pds_bin.
    rewrite (accumulate_raises_only fadd _ _ _ k IndexError);
      [reflexivity | | | apply Hterm].
    - intros y e Hy He. apply range_In in Hy. unfold pds_term in He. rsimp.
      rewrite pdiv_R in He by (apply not_0_IZR; lia). cbn [bind] in He.
      destruct (safe_B_single_k y r0 td tb tau limit_k) eqn:HB; [discriminate|].
      injection He as <-.
      apply (safe_B_single_k_R_err y limit_k r0 td tb tau); auto;
        apply Rgt_not_eq; assumption.
    - apply range_In. lia. }
  assert (Hhalf : (1 <= N / 2)%Z) by (apply Z.div_le_lower_bound; lia).
  unfold pds_model_zhang, r_det. rsimp.
  rewrite (pdiv_R 1 rate) by lra. cbn [bind]. rewrite <- Etau.
  rewrite (pdiv_R 1 (tau + td)) by lra. cbn [bind]. rewrite <- Er0.
  unfold _inner_loop_pds_zhang.
  destruct (Z.ltb_spec (N / 2) 0); [lia|].
  rewrite (range_cons 0 (N / 2)) by lia. cbn [mapM]. now rewrite Hbin.
Qed.

(** X16: when the bin time is a whole multiple [q] of the dead time and some
    summed lag [1 <= k < min(N, limit_k)] has [(k + 1) * q > 100], the call
    raises [IndexError]: the support boundary [(k + 1) * tb = n * td] falls
    on the index [n = (k + 1) * q] of the loop of [A_single_k], where
    [Gn(0, n)] runs past the table.  With the default [limit_k = 60] and
    [N >= 60] this is every [q >= 2]. *)
Theorem pds_model_zhang_commensurate (N limit_k k q : Z) (rate td : R) :
  (0 < rate)%R -> (0 < td)%R -> (1 <= q)%Z ->
  (1 <= k < Z.min N limit_k)%Z -> (MAX_FACTORIAL < (k + 1) * q)%Z ->
  pds_model_zhang N rate td (IZR q * td)%R limit_k = Err IndexError.
Proof. apply pds_model_zhang_R_commensurate. Qed.

Lemma pds_model_zhang_commensurate_witness :
  pds_model_zhang 128 1%R (1 / 4)%R (IZR 2 * (1 / 4))%R 60 = Err IndexError.
Proof.
  apply (pds_model_zhang_commensurate 128 60 59 2); try lra; try lia.
  unfold MAX_FACTORIAL. lia.
Defined.

(** ** One lag or a sequence of lags *)

Lemma mapM_nth_error {A B : Type} (f : A -> result B) (xs : list A)
    (ys : list B) (j : nat) (x : A) :
  mapM f xs = Ok ys -> nth_error xs j = Some x ->
  exists y, nth_error ys j = Some y /\ f x = Ok y.
Proof.
  revert ys j. induction xs as [|x0 xs IH]; intros ys j Hm Hj.
  - destruct j; discriminate.
  - cbn in Hm. destruct (f x0) as [y0|] eqn:H0; [|discriminate]. cbn in Hm.
    destruct (mapM f xs) as [ys'|]; [|discriminate]. cbn in Hm.
    injection Hm as <-. destruct j as [|j]; cbn in Hj |- *.
    + injection Hj as <-. eauto.
    + now apply IH.
Qed.

(** X17: whatever the arithmetic, when [A] returns on a sequence of lags it
    returns as many values as lags, and the value at each position is the
    one [A] returns on that lag alone. *)
Theorem A_sequence {F : Type} (num : Num F) (ks : list Z) (vs : list F)
    (j : nat) (k : Z) (r0 td tb tau : F) :
  A (Lags ks) r0 td tb tau = Ok (Vals vs) -> nth_error ks j = Some k ->
  length vs = length ks
  /\ exists v, nth_error vs j = Some v /\ A (Lag k) r0 td tb tau = Ok (Val v).
Proof.
  intros HA Hj. cbn [A] in *.
  destruct (mapM _ ks) as [vs'|] eqn:Hm; [|discriminate].
  cbn [bind] in HA. injection HA as <-. split.
  - now apply mapM_length in Hm.
  - destruct (mapM_nth_error _ ks vs' j k Hm Hj) as [v [Hv Hk]].
    exists v. split; [exact Hv|]. now rewrite Hk.
Qed.

Lemma A_sequence_witness :
  length [(1 * 1)%R; 0%R] = length [0%Z; 1%Z]
  /\ exists v, nth_error [(1 * 1)%R; 0%R] 1 = Some v
               /\ A (Lag 1) 1%R 3%R 1%R 1%R = Ok (Val v).
Proof.
  apply (A_sequence R_num [0; 1]%Z [(1 * 1)%R; 0%R] 1 1%Z 1%R 3%R 1%R 1%R);
    [|reflexivity].
  cbn [A mapM].
  destruct (B_raw_R_short_bin 1%R 3%R 1%R 1%R) as [-> _]; try lra.
  destruct (B_raw_R_within_dead_time 1 1%R 3%R 1%R 1%R) as [-> _];
    cbn [Z.add Pos.add]; try lra; try lia.
  reflexivity.
Defined.

(** X18: lags beyond the cut are not evaluated: when every lag of the
    sequence exceeds [limit_k], [B] returns zeros and raises nothing,
    whatever the arithmetic and the parameters (even [td = 0] or
    [tb = 0]). *)
Theorem B_beyond_cut {F : Type} (num : Num F) (ks : list Z)
    (r0 td tb tau : F) (limit_k : Z) :
  (forall k, In k ks -> (limit_k < k)%Z) ->
  B (Lags ks) r0 td tb tau limit_k = Ok (Vals (map (fun _ => of_Z 0) ks)).
Proof.
  intros Hks. unfold B, safe_B.
  rewrite (mapM_ok _ (fun _ => of_Z 0)); [reflexivity|].
  intros k Hk. unfold safe_B_single_k.
  destruct (Z.ltb_spec limit_k k) as [_ | Hle]; [reflexivity|].
  specialize (Hks k Hk). lia.
Qed.

Lemma B_beyond_cut_witness :
  B (Lags [61; 62]%Z) 1%R 0%R 0%R 1%R 60
  = Ok (Vals (map (fun _ => 0%R) [61; 62]%Z)).
Proof.
  apply (B_beyond_cut R_num [61; 62]%Z 1%R 0%R 0%R 1%R 60).
  intros k [<- | [<- | []]]; lia.
Defined.

Lemma limit_A_R (rate td tb : R) :
  (0 < rate)%R -> (0 < td)%R ->
  limit_A rate td tb = Ok ((1 / (1 / rate + td)) ^ 2 * tb ^ 2)%R.
Proof.
  intros Hrate Htd.
  assert (Htau : (0 < 1 / rate)%R) by (apply Rdiv_lt_0_compat; lra).
  unfold limit_A, r_det. rsimp.
  rewrite (pdiv_R 1 rate) by lra. cbn [bind].
  rewrite (pdiv_R 1 (1 / rate + td)) by lra. cbn [bind].
  rewrite !ppow_R. cbn [bind]. rsimp. f_equal; simpl; ring.
Qed.

(** X19: for positive [rate], [td], [tb], [limit_A] returns
    [r0² * tb²] with [r0 = r_det(td, rate)], and [B_raw(k)] vanishes exactly
    when [A_single_k(k)] equals that limit. *)
Theorem B_raw_zero_iff_limit (k : Z) (rate td tb a b : R) :
  (0 < rate)%R -> (0 < td)%R -> (0 < tb)%R ->
  A_single_k k (1 / (1 / rate + td))%R td tb (1 / rate)%R = Ok a ->
  B_raw k (1 / (1 / rate + td))%R td tb (1 / rate)%R = Ok b ->
  limit_A rate td tb = Ok ((1 / (1 / rate + td)) ^ 2 * tb ^ 2)%R
  /\ (b = 0%R <-> a = ((1 / (1 / rate + td)) ^ 2 * tb ^ 2)%R).
Proof.
  intros Hrate Htd Htb Ha Hb.
  assert (Htau : (0 < 1 / rate)%R) by (apply Rdiv_lt_0_compat; lra).
  assert (Hr0 : (0 < 1 / (1 / rate + td))%R) by (apply Rdiv_lt_0_compat; lra).
  split; [now apply limit_A_R|].
  set (r0 := (1 / (1 / rate + td))%R) in *.
  assert (Hnz : (0 < r0 * tb)%R) by nra.
  rewrite (B_raw_R k r0 td tb (1 / rate)%R a) in Hb by first [assumption | lra].
  injection Hb as <-.
  set (c := (if (k =? 0)%Z then 2 else 4)%R).
  assert (Hc : (0 < c)%R) by (unfold c; destruct (k =? 0)%Z; lra).
  set (d := (a - r0 ^ 2 * tb ^ 2)%R).
  assert (Hq : (c * d / (r0 * tb) = 0 <-> d = 0)%R).
  { split.
    - intros H0.
      assert (c * d = 0)%R.
      { replace (c * d)%R with (c * d / (r0 * tb) * (r0 * tb))%R by (field; lra).
        rewrite H0. ring. }
      nra.
    - intros ->. field. lra. }
  split; intros H; [apply Hq in H | apply Hq]; unfold d in *; lra.
Qed.

Lemma B_raw_zero_iff_limit_witness :
  limit_A 1%R 2%R 1%R = Ok ((1 / (1 / 1 + 2)) ^ 2 * 1 ^ 2)%R
  /\ ((2 * (1 - 1 / (1 / 1 + 2) * 1))%R = 0%R
      <-> (1 / (1 / 1 + 2) * 1)%R = ((1 / (1 / 1 + 2)) ^ 2 * 1 ^ 2)%R).
Proof.
  destruct (B_raw_R_short_bin (1 / (1 / 1 + 2))%R 2%R 1%R (1 / 1)%R)
    as [Ha Hb]; try lra.
  apply (B_raw_zero_iff_limit 0 1%R 2%R 1%R _ _); try lra; assumption.
Defined.

(** X20: for positive [rate], [td], [tb] and
    [(max_k + 2) * tb < 34 * td], [check_A] returns the lags
    [0, ..., max_k] and as many values, the value at lag [k] being
    [A_single_k(k)] at [r0 = r_det(td, rate)] and [tau = 1 / rate]; with a
    negative [max_k] it returns two empty arrays. *)
Theorem check_A_returns (max_k k empty_k : Z) (rate td tb : R) :
  (0 < rate)%R -> (0 < td)%R -> (0 < tb)%R ->
  (0 <= k <= max_k)%Z -> (empty_k < 0)%Z ->
  ((IZR max_k + 2) * tb < 34 * td)%R ->
  check_A rate td tb empty_k = Ok ([], [])
  /\ exists vs,
       check_A rate td tb max_k = Ok (range 0 (max_k + 1), vs)
       /\ length vs = Z.to_nat (max_k + 1)
       /\ exists a,
            nth_error vs (Z.to_nat k) = Some a
            /\ A_single_k k (1 / (1 / rate + td))%R td tb (1 / rate)%R = Ok a.
Proof.
  intros Hrate Htd Htb Hk Hempty Hbound.
  assert (Htau : (0 < 1 / rate)%R) by (apply Rdiv_lt_0_compat; lra).
  assert (Hhead : forall m,
    check_A rate td tb m
    = (A_values <- A (Lags (range 0 (m + 1)))
                     (1 / (1 / rate + td))%R td tb (1 / rate)%R ;;
       match A_values with
       | Vals vs => Ok (range 0 (m + 1), vs)
       | Val v => Ok (range 0 (m + 1), [v])
       end)).
  { intros m. unfold check_A. rewrite limit_A_R by assumption.
    unfold r_det. rsimp.
    rewrite (pdiv_R 1 rate) by lra. cbn [bind].
    rewrite (pdiv_R 1 (1 / rate + td)) by lra. reflexivity. }
  split.
  - rewrite Hhead. now rewrite range_nil by lia.
  - rewrite Hhead. cbn [A].
    destruct (mapM_all_ok
                (fun ki => A_single_k ki (1 / (1 / rate + td))%R td tb (1 / rate)%R)
                (range 0 (max_k + 1))) as [vs Hvs].
    { intros ki Hki. apply range_In in Hki.
      apply A_single_k_R_ok; try lra; try lia.
      assert (IZR ki <= IZR max_k)%R by (apply IZR_le; lia). nra. }
    exists vs. rewrite Hvs. cbn [bind]. split; [reflexivity|]. split.
    + apply mapM_length in Hvs. now rewrite range_length, Z.sub_0_r in Hvs.
    + apply (mapM_nth_error _ _ _ (Z.to_nat k) k Hvs).
      rewrite range_nth_error by lia. f_equal. lia.
Qed.

Lemma check_A_returns_witness :
  check_A 1%R 1%R (1 / 2)%R (-1) = Ok ([], [])
  /\ exists vs,
       check_A 1%R 1%R (1 / 2)%R 3 = Ok (range 0 (3 + 1), vs)
       /\ length vs = Z.to_nat (3 + 1)
       /\ exists a,
            nth_error vs (Z.to_nat 2) = Some a
            /\ A_single_k 2 (1 / (1 / 1 + 1))%R 1%R (1 / 2)%R (1 / 1)%R = Ok a.
Proof. apply (check_A_returns 3 2 (-1)); lra || lia. Defined.

(** ** The range in which the table suffices *)

(** X21: for a lag [k >= 0], positive [r0], [td], [tb], [tau] and
    [(k + 2) * tb < 34 * td], every index the loops of [A_single_k] pass to
    [Gn] is below the size of the table: [A_single_k(k)] and [B_raw(k)]
    return, and [safe_B_single_k] returns [B_raw(k)] up to the cut. *)
Theorem A_single_k_returns (k limit_k : Z) (r0 td tb tau : R) :
  (0 <= k <= limit_k)%Z ->
  (0 < r0)%R -> (0 < td)%R -> (0 < tb)%R -> (0 < tau)%R ->
  ((IZR k + 2) * tb < 34 * td)%R ->
  exists a,
    A_single_k k r0 td tb tau = Ok a
    /\ B_raw k r0 td tb tau
       = Ok ((if (k =? 0)%Z then 2 else 4) * (a - r0 ^ 2 * tb ^ 2) / (r0 * tb))%R
    /\ safe_B_single_k k r0 td tb tau limit_k = B_raw k r0 td tb tau.
Proof.
  intros Hk Hr0 Htd Htb Htau Hbound.
  destruct (A_single_k_R_ok k r0 td tb tau) as [a Ha]; try lra; try lia.
  exists a. split; [exact Ha|]. split.
  - apply B_raw_R; [nra | exact Ha].
  - unfold safe_B_single_k. destruct (Z.ltb_spec limit_k k); [lia | reflexivity].
Qed.

Lemma A_single_k_returns_witness :
  exists a,
    A_single_k 5 1%R 1%R 2%R 1%R = Ok a
    /\ B_raw 5 1%R 1%R 2%R 1%R
       = Ok ((if (5 =? 0)%Z then 2 else 4) * (a - 1 ^ 2 * 2 ^ 2) / (1 * 2))%R
    /\ safe_B_single_k 5 1%R 1%R 2%R 1%R 60 = B_raw 5 1%R 1%R 2%R 1%R.
Proof. apply A_single_k_returns; lra || lia. Defined.
